(** * Customer-Complaints-Handling: the CFPB client and the data shaping of
      the dashboard

    A shallow embedding of [src/cfpb_api_client.py] (class [CFPBApiClient])
    and of the data-shaping part of [src/Home.py] ([cleanup_narratives] and
    the trend reshaping inside [fetch_data]), with the properties the
    specification states about them.

    Conventions.
    - A Python [dict] is an insertion-ordered association list; the keyword
      arguments of a call have pairwise distinct keys.
    - A function that may raise returns an [Outcome]; what it writes to
      standard output is kept as a list of [Printed] events.
    - The network is a function from the request to the response. *)

From Stdlib Require Import ZArith Bool Ascii String List Lia.
From stdpp Require Import base decidable option list strings gmap.

Local Open Scope Z_scope.
Local Open Scope string_scope.
Local Open Scope list_scope.

(** * Values shared by both source files *)

(** Python exceptions the modelled code can raise. *)
Inductive Exception :=
| ValueError (msg : string)
| KeyError (key : string)
| InvalidIndexError
| JSONDecodeError.

Inductive Outcome (A : Type) :=
| Return (a : A)
| Raise (e : Exception).
Arguments Return {A} a.
Arguments Raise {A} e.

(** Sequencing: the first exception raised ends the computation. *)
#[export] Instance Outcome_bind : MBind Outcome := λ A B k m,
  match m with
  | Return a => k a
  | Raise e => Raise e
  end.

(** A decoded JSON document. *)
#[warnings="-register-all"]
Inductive Json :=
| JNull
| JBool (b : bool)
| JInt (n : Z)
| JStr (s : string)
| JList (l : list Json)
| JDict (d : list (string * Json)).

(** * cfpb_api_client.py *)

Module CFPBApiClient.

(** The values the callers pass as query options. *)
Inductive Value :=
| VNone
| VBool (b : bool)
| VInt (n : Z)
| VStr (s : string)
| VList (l : list string).

#[export] Instance Value_eq_dec : EqDecision Value.
Proof. solve_decision. Defined.

(** [**kwargs]: option name to value, in the order the caller wrote them. *)
Abbreviation Kwargs := (list (string * Value)) (only parsing).

(** What [requests.get] gives back: the status code, and what
    [response.json()] does (the decoded body, or [JSONDecodeError]). *)
Record Response := {
  status_code : Z;
  json : Outcome Json;
}.

(** [requests.get(url, params=params)]. *)
Abbreviation Transport := (string → Kwargs → Response) (only parsing).

(** One line written by [print]. *)
Inductive Printed :=
| PrintParams (title : string) (params : Kwargs)
    (* print(title, json.dumps(params, indent=2)) *)
| PrintInvalid (keys : list string).
    (* print(f"Invalid parameters: {invalid_params}") *)

(** Everything observable of one client call. *)
Record Call := {
  stdout : list Printed;
  url : string;
  params : Kwargs;          (* the query parameters sent *)
  response : Response;
  result : Outcome Json;    (* what the caller gets *)
}.

Definition base_url : string :=
  "https://www.consumerfinance.gov/data-research/consumer-complaints/search/api/v1/".

(** [{"error": "Failed to fetch data", "status_code": response.status_code}] *)
Definition error_payload (code : Z) : Json :=
  JDict [("error", JStr "Failed to fetch data"); ("status_code", JInt code)].

Definition search_valid_params : list string :=
  ["search_term"; "field"; "frm"; "size"; "sort"; "format"; "no_aggs"; "no_highlight";
   "company"; "company_public_response"; "company_received_max"; "company_received_min";
   "company_response"; "consumer_consent_provided"; "consumer_disputed"; "date_received_max";
   "date_received_min"; "has_narrative"; "issue"; "product"; "state"; "submitted_via"; "tags";
   "timely"; "zip_code"].

Definition trend_valid_params : list string :=
  ["search_term"; "field"; "company"; "company_public_response"; "company_received_max";
   "company_received_min"; "company_response"; "consumer_consent_provided"; "consumer_disputed";
   "date_received_max"; "date_received_min"; "focus"; "has_narrative"; "issue"; "lens";
   "product"; "state"; "submitted_via"; "sub_lens"; "sub_lens_depth"; "tags"; "timely";
   "trend_depth"; "trend_interval"; "zip_code"].

Section Client.
Variable requests_get : Transport.

Definition search_complaints (kwargs : Kwargs) : Call :=
  let valid_params := search_valid_params in
  (* params = {k: v for k, v in kwargs.items() if k in valid_params} *)
  let params := filter (λ kv, kv.1 ∈ valid_params) kwargs in
  let out1 := [PrintParams "Search Complaints" params] in
  (* invalid_params = [k for k in kwargs.keys() if k not in valid_params] *)
  let invalid_params := filter (λ k, k ∉ valid_params) (kwargs.*1) in
  let out2 := match invalid_params with
              | [] => []
              | _ :: _ => [PrintInvalid invalid_params]
              end in
  let response := requests_get base_url params in
  {| stdout := out1 ++ out2;
     url := base_url;
     params := params;
     response := response;
     result := if (status_code response =? 200)%Z then json response
               else Return (error_payload (status_code response)) |}.

Definition get_complaint (complaintId : string) : Call :=
  let url := base_url +:+ "/" +:+ complaintId in
  let response := requests_get url [] in
  {| stdout := [];
     url := url;
     params := [];
     response := response;
     result := if (status_code response =? 200)%Z then json response
               else Return (error_payload (status_code response)) |}.

Definition get_trend (kwargs : Kwargs) : Call :=
  let valid_params := trend_valid_params in
  let params := filter (λ kv, kv.1 ∈ valid_params) kwargs in
  let out1 := [PrintParams "Get Trend" params] in
  let invalid_params := filter (λ k, k ∉ valid_params) (kwargs.*1) in
  let out2 := match invalid_params with
              | [] => []
              | _ :: _ => [PrintInvalid invalid_params]
              end in
  let response := requests_get (base_url +:+ "trends/") params in
  {| stdout := out1 ++ out2;
     url := base_url +:+ "trends/";
     params := params;
     response := response;
     result := if (status_code response =? 200)%Z then json response
               else Return (error_payload (status_code response)) |}.

End Client.

(** The two endpoints that filter their options, and the view of lines
    66-79 and 143-156 the specification calls ParameterFilter: the
    parameters kept and the keys rejected. *)
Inductive Endpoint := Search | Trend.

Definition valid_params (e : Endpoint) : list string :=
  match e with
  | Search => search_valid_params
  | Trend => trend_valid_params
  end.

Definition call (e : Endpoint) (get : Transport) (kwargs : Kwargs) : Call :=
  match e with
  | Search => search_complaints get kwargs
  | Trend => get_trend get kwargs
  end.

(** The keys a call reports as rejected: the argument of its
    [PrintInvalid] line, nothing when there is no such line. *)
Definition reported (c : Call) : list string :=
  flat_map (λ p, match p with PrintInvalid ks => ks | _ => [] end) (stdout c).

End CFPBApiClient.

(** * Home.py *)

Module Home.

(** ** Text and the regular expressions of [re] *)

(** A Python [str] is a sequence of code points. *)
Abbreviation Char := N (only parsing).
Abbreviation Text := (list Char) (only parsing).

Definition text (s : string) : Text := N_of_ascii <$> list_ascii_of_string s.

(** How CPython classifies the code points from 128 on (its Unicode
    database); below 128 the classes are written out here. *)
Class UnicodeDB := {
  uni_isalnum : Char → bool;
  uni_isdecimal : Char → bool;
}.

Section Re.
Context `{UnicodeDB}.

Definition in_range (lo hi : string) (c : Char) : bool :=
  match text lo, text hi with
  | [l], [h] => (l <=? c)%N && (c <=? h)%N
  | _, _ => false
  end.

(** [\d] *)
Definition is_digit (c : Char) : bool :=
  if (c <? 128)%N then in_range "0" "9" c else uni_isdecimal c.

(** [\w] *)
Definition is_word (c : Char) : bool :=
  if (c <? 128)%N
  then in_range "a" "z" c || in_range "A" "Z" c || in_range "0" "9" c || (c =? 95)%N
  else uni_isalnum c.

(** What may stand inside [[...]]. *)
Inductive SetItem :=
| Range (lo hi : string)   (* a-z *)
| Digit.                   (* \d *)

Definition in_item (c : Char) (i : SetItem) : bool :=
  match i with
  | Range lo hi => in_range lo hi c
  | Digit => is_digit c
  end.

Inductive Regex :=
| Lit (c : string)                (* one literal character *)
| NotIn (items : list SetItem)    (* [^...] *)
| WordBoundary                    (* \b *)
| Seq (r1 r2 : Regex)
| Plus (r : Regex)                (* r+, greedy *)
| Star (r : Regex).               (* (?:r)*, greedy *)

(** A position in the subject: the character before it, if any, and
    the text from it on. *)
Definition Pos : Type := option Char * Text.

Definition word_at (o : option Char) : bool :=
  match o with
  | Some c => is_word c
  | None => false
  end.

(** [\b] holds where exactly one of the two neighbours is a word
    character; outside the string counts as a non-word. *)
Definition at_boundary (p : Pos) : bool :=
  xorb (word_at p.1) (word_at (head p.2)).

(** Greedy repetition of [step]: first every way of doing one more
    round (a round has to consume something), last no round at all. *)
Fixpoint repeat_greedy (step : Pos → list Pos) (fuel : nat) (p : Pos) : list Pos :=
  match fuel with
  | O => [p]
  | S fuel' =>
      (filter (λ q, length q.2 < length p.2)%nat (step p)
         ≫= repeat_greedy step fuel') ++ [p]
  end.

(** The backtracking matcher: every position at which a match of [r]
    begun at [p] can end, in the order [re] tries them. *)
Fixpoint run (r : Regex) (p : Pos) : list Pos :=
  match r with
  | Lit s =>
      match p.2 with
      | c :: rest => if bool_decide (text s = [c]) then [(Some c, rest)] else []
      | [] => []
      end
  | NotIn items =>
      match p.2 with
      | c :: rest => if existsb (in_item c) items then [] else [(Some c, rest)]
      | [] => []
      end
  | WordBoundary => if at_boundary p then [p] else []
  | Seq r1 r2 => run r1 p ≫= run r2
  | Plus r1 => run r1 p ≫= (λ q, repeat_greedy (run r1) (length q.2) q)
  | Star r1 => repeat_greedy (run r1) (length p.2) p
  end.

(** [pattern.match(string, pos)]: the first way that succeeds. *)
Definition re_match (r : Regex) (p : Pos) : option Pos := head (run r p).

(** [re.sub(pattern, repl, string)] for a [repl] without group
    references: leftmost matches, not overlapping, each replaced by
    [repl]; after an empty match one character is copied. *)
Fixpoint sub_from (r : Regex) (repl : Text) (fuel : nat) (prev : option Char) (s : Text) : Text :=
  match fuel with
  | O => s
  | S fuel' =>
      let copy := match s with
                  | [] => []
                  | c :: rest => c :: sub_from r repl fuel' (Some c) rest
                  end in
      match re_match r (prev, s) with
      | Some (prev', rest) =>
          if bool_decide (length rest < length s)%nat
          then repl ++ sub_from r repl fuel' prev' rest
          else repl ++ copy
      | None => copy
      end
  end.

Definition re_sub (r : Regex) (repl : Text) (s : Text) : Text :=
  sub_from r repl (S (length s)) None s.

End Re.

(** ** cleanup_narratives *)

(** A pandas [Series] of strings; [None] is a missing value (NaN). *)
Abbreviation Series := (list (option Text)) (only parsing).

Section Narratives.
Context `{UnicodeDB}.

(** [r'\bX+(?:[^a-zA-Z\d]X+)*'] *)
Definition pattern : Regex :=
  Seq WordBoundary
    (Seq (Plus (Lit "X"))
         (Star (Seq (NotIn [Range "a" "z"; Range "A" "Z"; Digit]) (Plus (Lit "X"))))).

Definition replacement : Text := text "[R]".

(** [series.str.replace(pattern, replacement, regex=True)] *)
Definition cleanup_narratives (series : Series) : Series :=
  fmap (M:=option) (re_sub pattern replacement) <$> series.

(** [series.str.slice(start, stop)] with [start = 0]. *)
Definition str_slice (stop : nat) (series : Series) : Series :=
  fmap (M:=option) (take stop) <$> series.

(** The column [clean_narratives] that [fetch_data] derives from the
    column [complaint_what_happened] (lines 110-112). *)
Definition clean_narratives (complaint_what_happened : Series) : Series :=
  str_slice 500 (cleanup_narratives complaint_what_happened).

(** What that does to one narrative: the specification's
    NarrativeRedactor. *)
Definition NarrativeRedactor (narrative : Text) : Text :=
  take 500 (re_sub pattern replacement narrative).

End Narratives.

(** The classification of the code points 128-255 (Latin-1), none of
    them a decimal digit; used to run the examples. *)
Definition latin1 : UnicodeDB := {|
  uni_isalnum c :=
    bool_decide (c ∈ [170; 178; 179; 181; 185; 186; 188; 189; 190]%N)
    || (192 <=? c)%N && (c <=? 255)%N && negb (c =? 215)%N && negb (c =? 247)%N;
  uni_isdecimal c := false;
|}.

(** ** The trend table ([fetch_data], lines 122-133) *)

(** One element of [trend['aggregations']['product']['product']['buckets']]:
    [item['key']] and, for every element of
    [item['trend_period']['buckets']], its [key_as_string] and [doc_count]. *)
Record CategoryBucket := {
  key : string;
  trend_period : list (string * Z);
}.

(** A pandas [DataFrame] indexed by timestamp labels: the index, and the
    columns from left to right, each with its name and its cells from the
    first row to the last.  A cell is the number it holds, whether pandas
    keeps it as an integer or as a float64 (3 and 3.0 are the cell 3);
    a cell of [option Z] is such a number or NaN. *)
Record DataFrame (C : Type) := {
  index : list string;
  columns : list (string * list C);
}.
Arguments index {C} _.
Arguments columns {C} _.

(** [Index.unique()]: the labels in the order of their first occurrence. *)
Fixpoint unique (l : list string) : list string :=
  match l with
  | [] => []
  | x :: l' => x :: filter (λ y, y ≠ x) (unique l')
  end.

(** [Index.get_indexer] for one label: where it stands in [idx]. *)
Definition get_indexer (idx : list string) (label : string) : option nat :=
  fst <$> list_find (λ l, l = label) idx.

(** The dtype [pd.DataFrame] gives a column of Python integers
    ([lib.maybe_convert_objects]): [int64] when they all fit in it,
    [uint64] when one of them is above the range of int64 and none is
    negative, and [object], the integers kept as they are, when one of
    them fits in neither or they fit in no one of the two together. *)
Inductive Dtype := int64 | uint64 | object.

#[export] Instance Dtype_eq_dec : EqDecision Dtype.
Proof. solve_decision. Defined.

Definition dtype (cells : list Z) : Dtype :=
  if bool_decide (Exists (λ v : Z, (v < - 2 ^ 63 ∨ 2 ^ 64 ≤ v)%Z) cells) then object
  else if bool_decide (Exists (λ v : Z, (2 ^ 63 ≤ v)%Z) cells)
       then if bool_decide (Exists (λ v : Z, (v < 0)%Z) cells) then object else uint64
       else int64.

(** The float64 an integer is converted to, as the integer it is: the
    53 leading bits of the magnitude, rounded to the nearest, to the
    even one of two that are as near.  Up to 2^53 nothing is lost. *)
Definition float64_of_int (n : Z) : Z :=
  let a := Z.abs n in
  let shift := (Z.log2 a - 52)%Z in
  if (shift <=? 0)%Z then n
  else
    let q := Z.shiftr a shift in
    let r := Z.land a (Z.ones shift) in
    let half := Z.shiftl 1 (shift - 1) in
    let q' := if (half <? r)%Z || (r =? half)%Z && Z.odd q then (q + 1)%Z else q in
    (Z.sgn n * Z.shiftl q' shift)%Z.

(** [take_nd] with the indexer of [new_index] in [idx]: the cell of
    each label, NaN for a label that [idx] does not have. *)
Definition take_nd (idx : list string) (cells : list Z) (new_index : list string)
  : list (option Z) :=
  (λ label, i ← get_indexer idx label; cells !! i) <$> new_index.

(** The cells of a column after reindexing from [idx] to [new_index].
    A column of int64 or uint64 that gets a NaN becomes a column of
    float64, all its cells converted; a column that gets none stays as
    it is, and so does a column of Python objects. *)
Definition reindex_cells (idx : list string) (cells : list Z) (new_index : list string)
  : list (option Z) :=
  let taken := take_nd idx cells new_index in
  if bool_decide (Forall is_Some taken) then taken
  else match dtype cells with
       | object => taken
       | int64 | uint64 => fmap (M:=option) float64_of_int <$> taken
       end.

(** The columns of a frame that is not reindexed, and of one that is. *)
Definition keep (d : DataFrame Z) : list (string * list (option Z)) :=
  (λ col : string * list Z, (col.1, Some <$> col.2)) <$> columns d.

Definition reindex (new_index : list string) (d : DataFrame Z)
  : list (string * list (option Z)) :=
  (λ col : string * list Z, (col.1, reindex_cells (index d) col.2 new_index)) <$> columns d.

(** The body of the loop: [pd.DataFrame(buckets)[['key_as_string',
    'doc_count']]], the renaming to [Date] and [item['key']], and
    [set_index('Date')].  A category called [Date] gives the frame two
    columns of that name, of which no column of dates can be made: the
    reshaping fails on it, in [set_index] or not later than in line 131
    according to the version of pandas.  Here it fails at once; the
    properties below are about the responses without such a category,
    and about the tables that are returned. *)
Definition item_frame (item : CategoryBucket) : Outcome (DataFrame Z) :=
  match trend_period item with
  | [] =>
      (* a frame built from no records has no columns to select *)
      Raise (KeyError "key_as_string")
  | _ :: _ =>
      if bool_decide (key item = "Date")
      then Raise (ValueError "Index data must be 1-dimensional")
      else Return {| index := (trend_period item).*1;
                     columns := [(key item, (trend_period item).*2)] |}
  end.

(** [for item in ...: ...; data.append(df_item)] *)
Fixpoint collect (items : list CategoryBucket) : Outcome (list (DataFrame Z)) :=
  match items with
  | [] => Return []
  | item :: items' =>
      df_item ← item_frame item;
      data ← collect items';
      Return (df_item :: data)
  end.

(** [pd.concat(data, axis=1)], an outer join on the index that does not
    sort ([join='outer'], [sort=False]): frames whose indexes are all the
    same are put side by side as they are; otherwise the new index is the
    union of the labels in the order of first occurrence and every frame
    is reindexed to it, which pandas refuses for an index with
    duplicates. *)
Definition concat_axis1 (data : list (DataFrame Z)) : Outcome (DataFrame (option Z)) :=
  match data with
  | [] => Raise (ValueError "No objects to concatenate")
  | first :: others =>
      if bool_decide (Forall (λ d, index d = index first) others)
      then Return {| index := index first;
                     columns := data ≫= keep |}
      else
        let new_index := unique (data ≫= index) in
        if bool_decide (Forall (λ d, NoDup (index d)) data)
        then Return {| index := new_index;
                       columns := data ≫= reindex new_index |}
        else Raise InvalidIndexError
  end.

(** The frame after [reset_index()], [pd.to_datetime] on its [Date]
    column and [fillna(0)]: the table kept in the session state. *)
Record TrendTable (Timestamp : Type) := {
  Date : list Timestamp;
  counts : list (string * list Z);
}.
Arguments Date {Timestamp} _.
Arguments counts {Timestamp} _.

(** The column names, from left to right. *)
Definition column_names {T} (t : TrendTable T) : list string := "Date" :: (counts t).*1.

(** The cell in row [i] of the [j]-th count column. *)
Definition cell {T} (t : TrendTable T) (i j : nat) : option Z :=
  col ← counts t !! j; col.2 !! i.

Section Trend.
(** What lines 131 and 133 make of one label of the [Date] column:
    the timestamp [pd.to_datetime] reads in it, by the format of the
    column, or nothing when pandas cannot parse the label (it raises
    then).  A label that pandas reads as a missing date, as the empty
    string, gets [NaT] in line 131 and 0 from [fillna(0)] in line 133:
    no exception, and a cell that an instance has to provide for among
    its timestamps. *)
Context {Timestamp : Type} (to_datetime : string → option Timestamp).

(** [df_trend['Date'] = pd.to_datetime(df_trend['Date'])] *)
Fixpoint to_datetime_column (labels : list string) : Outcome (list Timestamp) :=
  match labels with
  | [] => Return []
  | label :: labels' =>
      match to_datetime label with
      | Some ts => dates ← to_datetime_column labels'; Return (ts :: dates)
      | None => Raise (ValueError "Unknown datetime string format")
      end
  end.

(** [reset_index()]: the index becomes the first column, [Date]. *)
Definition reset_index (df : DataFrame (option Z)) : Outcome (DataFrame (option Z)) :=
  if bool_decide ("Date" ∈ (columns df).*1)
  then Raise (ValueError "cannot insert Date, already exists")
  else Return df.

(** [fillna(0)] on the count columns: 0 for every NaN.  (What it does
    in the [Date] column is part of [to_datetime].) *)
Definition fillna (value : Z) (cols : list (string * list (option Z)))
  : list (string * list Z) :=
  (λ col : string * list (option Z), (col.1, default value <$> col.2)) <$> cols.

(** Lines 122-133 of [fetch_data]: from the category buckets of the
    trend response to the table stored as [st.session_state['trend']]. *)
Definition TrendReshaper (buckets : list CategoryBucket) : Outcome (TrendTable Timestamp) :=
  data ← collect buckets;
  df_trend ← concat_axis1 data;
  df_trend ← reset_index df_trend;
  dates ← to_datetime_column (index df_trend);
  Return {| Date := dates; counts := fillna 0 (columns df_trend) |}.

End Trend.

(** A calendar date, and [pd.to_datetime] on the labels of the form
    [YYYY-MM-DD], the form of the labels in the specification's
    example.  [iso_date] reads these labels and no other: it is the
    instance for the responses written out below, and does not follow
    pandas on a label of another form, which pandas may read as well. *)
Record CalendarDate := { year : Z; month : Z; day : Z }.

Definition digit (c : ascii) : option Z :=
  let n := Z.of_N (N_of_ascii c) in
  if (48 <=? n)%Z && (n <=? 57)%Z then Some (n - 48)%Z else None.

Fixpoint number (acc : Z) (cs : list ascii) : option Z :=
  match cs with
  | [] => Some acc
  | c :: cs' => d ← digit c; number (10 * acc + d) cs'
  end.

Definition is_leap (y : Z) : bool :=
  ((y mod 4 =? 0) && negb (y mod 100 =? 0) || (y mod 400 =? 0))%Z.

Definition days_in_month (y m : Z) : Z :=
  if (m =? 2)%Z then (if is_leap y then 29 else 28)
  else if bool_decide (m ∈ [4; 6; 9; 11]) then 30 else 31.

Definition iso_date (label : string) : option CalendarDate :=
  match list_ascii_of_string label with
  | [y1; y2; y3; y4; s1; m1; m2; s2; d1; d2] =>
      if bool_decide (s1 = "-"%char ∧ s2 = "-"%char) then
        y ← number 0 [y1; y2; y3; y4];
        m ← number 0 [m1; m2];
        d ← number 0 [d1; d2];
        if ((1 <=? y) && (1 <=? m) && (m <=? 12) && (1 <=? d) && (d <=? days_in_month y m))%Z
        then Some {| year := y; month := m; day := d |}
        else None
      else None
  | _ => None
  end.

(** The order of the calendar. *)
Definition date_le (a b : CalendarDate) : Prop :=
  (year a < year b ∨
   year a = year b ∧ (month a < month b ∨ month a = month b ∧ day a ≤ day b))%Z.

End Home.

(** * Notions used to state the properties *)

Section ClientNotions.
Import CFPBApiClient.

(** The mapping a [dict] stands for. *)
Definition dict (d : Kwargs) : gmap string Value := list_to_map d.

(** The reading of C4 as it is written: the caller can read the
    rejected keys off the value the operation returns. *)
Definition rejected_keys_are_returned e : Prop :=
  ∃ rejected_of : Outcome Json → list string,
    ∀ get kwargs,
      rejected_of (result (call e get kwargs))
      = filter (λ k, k ∉ valid_params e) kwargs.*1.

(** The inputs of the specification's example, with and without the
    unknown key, against a service that answers 200 with [null]. *)
Definition example_options : Kwargs := [("size", VInt 20); ("bogus_key", VStr "x")].

Definition answers_null : Transport :=
  λ _ _, {| status_code := 200; json := Return JNull |}.

End ClientNotions.

Section RedactorNotions.
Import Home.
Context `{UnicodeDB}.

(** The mask letter, [X]. *)
Definition X : Char := 88%N.

Definition is_X (c : Char) : bool := bool_decide (text "X" = [c]).

(** A separator: a character [[^a-zA-Z\d]] accepts. *)
Definition is_sep (c : Char) : bool :=
  negb (existsb (in_item c) [Range "a" "z"; Range "A" "Z"; Digit]).

Definition starts_with_X (s : Text) : bool :=
  match s with
  | c :: _ => is_X c
  | [] => false
  end.

(** The group [(?:[^a-zA-Z\d]X+)]. *)
Definition group : Regex :=
  Seq (NotIn [Range "a" "z"; Range "A" "Z"; Digit]) (Plus (Lit "X")).

(** [s] without its leading [X]s. *)
Fixpoint skip_X (s : Text) : Text :=
  match s with
  | [] => []
  | c :: r => if is_X c then skip_X r else s
  end.

(** What is left of [s], a text that follows an [X], once the mask run
    that [X] belongs to has been read to its end. *)
Fixpoint run_end (s : Text) : Text :=
  match s with
  | [] => []
  | c :: r =>
      if is_X c then run_end r
      else if is_sep c then
        match r with
        | d :: r' => if is_X d then run_end r' else s
        | [] => s
        end
      else s
  end.

(** The substitution as one pass from left to right: outside of a mask
    run, knowing whether the previous character is a word character,
    or inside of one. *)
Inductive Mode := Outside (prev_word : bool) | Inside.

Fixpoint scan (m : Mode) (s : Text) : Text :=
  match s with
  | [] => []
  | c :: r =>
      match m with
      | Outside prev_word =>
          if is_X c && negb prev_word then replacement ++ scan Inside r
          else c :: scan (Outside (is_word c)) r
      | Inside =>
          if is_X c then scan Inside r
          else if is_sep c && starts_with_X r then scan Inside r
          else c :: scan (Outside (is_word c)) r
      end
  end.

(** What may follow the first [X] of a mask run: more [X]s, or one
    separator and an [X], any number of times. *)
Inductive MaskTail : Text → Prop :=
| tail_end : MaskTail []
| tail_X t : MaskTail t → MaskTail (X :: t)
| tail_sep c t : is_sep c = true → MaskTail t → MaskTail (c :: X :: t).

(** A mask run: [X+(?:[^a-zA-Z\d]X+)*]. *)
Definition MaskRun (m : Text) : Prop := ∃ t, m = X :: t ∧ MaskTail t.

(** The text [q] after a mask run does not continue it. *)
Definition stops (q : Text) : Prop :=
  match q with
  | [] => True
  | c :: q' => c ≠ X ∧ ¬ (is_sep c = true ∧ starts_with_X q' = true)
  end.

(** [Redacted w s out]: [out] is [s] with every mask run that begins at
    a word boundary, read to its end, replaced by [[R]], and every
    other character copied; [w] tells whether [s] follows a word
    character. *)
Inductive Redacted : bool → Text → Text → Prop :=
| redacted_end w : Redacted w [] []
| redacted_copy w c s out :
    w = true ∨ c ≠ X →
    Redacted (is_word c) s out →
    Redacted w (c :: s) (c :: out)
| redacted_run m q out :
    MaskRun m → stops q →
    Redacted true q out →
    Redacted false (m ++ q) (replacement ++ out).

(** The reading of C6 as it is written, on the specification's
    example. *)
Definition example_narrative : Text := text "Account XXXX123 was closed".

Definition example_is_redacted_as_specified : Prop :=
  NarrativeRedactor example_narrative = text "Account [R] was closed".

End RedactorNotions.

Section TrendNotions.
Import Home.
Context {Timestamp : Type} (to_datetime : string → option Timestamp).

(** Every timestamp label of the response, category after category. *)
Definition labels (buckets : list CategoryBucket) : list string :=
  buckets ≫= (λ item, (trend_period item).*1).

(** The count a category has at a label, if it has one. *)
Definition doc_count_at (item : CategoryBucket) (label : string) : option Z :=
  (list_to_map (trend_period item) : gmap string Z) !! label.

(** The frame the loop makes of one category. *)
Definition frame_of (item : CategoryBucket) : DataFrame Z :=
  {| index := (trend_period item).*1;
     columns := [(key item, (trend_period item).*2)] |}.

(** The column of a category becomes a column of float64 in the outer
    join over the rows [rows] when the category lacks one of the rows
    and its counts are kept as int64 or uint64. *)
Definition upcast (rows : list string) (item : CategoryBucket) : Prop :=
  ¬ Forall (λ label, label ∈ (trend_period item).*1) rows ∧
  dtype (trend_period item).*2 ≠ object.

#[export] Instance upcast_dec rows item : Decision (upcast rows item).
Proof. unfold upcast. apply _. Defined.

(** What the joined frame holds of a count [n] of the category. *)
Definition stored (rows : list string) (item : CategoryBucket) (n : Z) : Z :=
  if decide (upcast rows item) then float64_of_int n else n.

(** The column of a category over the rows [rows], before and after
    the missing values are filled. *)
Definition joined_column (rows : list string) (item : CategoryBucket)
  : string * list (option Z) :=
  (key item, (λ label, stored rows item <$> doc_count_at item label) <$> rows).

Definition count_column (rows : list string) (item : CategoryBucket)
  : string * list Z :=
  (key item, (λ label, default 0 (stored rows item <$> doc_count_at item label)) <$> rows).

(** The counts that float64 holds as they are: every integer up to
    2^53 in magnitude. *)
Definition fits_float64 (n : Z) : Prop := (Z.abs n ≤ 2 ^ 53)%Z.

Definition counts_fit_float64 (item : CategoryBucket) : Prop :=
  Forall fits_float64 (trend_period item).*2.

(** [t] has the shape the specification gives the trend table: its
    rows stand for the distinct timestamp labels of the response, one
    row each, its count columns for the categories, one column each,
    and a cell holds the category's count at the row's label, 0 when
    the category has none. *)
Definition reshaped (buckets : list CategoryBucket) (t : TrendTable Timestamp) : Prop :=
  ∃ rows : list string,
    NoDup rows ∧
    (∀ label, label ∈ rows ↔ label ∈ labels buckets) ∧
    Some <$> Date t = to_datetime <$> rows ∧
    (counts t).*1 = key <$> buckets ∧
    ∀ i j label item,
      rows !! i = Some label → buckets !! j = Some item →
      cell t i j = Some (default 0 (doc_count_at item label)).

(** The reading of C1 as it is written. *)
Definition reshapes_every_response (buckets : list CategoryBucket) : Prop :=
  NoDup (key <$> buckets) →
  ∃ t, TrendReshaper to_datetime buckets = Return t ∧ reshaped buckets t.

(** The responses on which the reshaping is carried through: at least
    one category, none of them called [Date], each with at least one
    period and no timestamp label twice, and labels that parse. *)
Definition well_formed (buckets : list CategoryBucket) : Prop :=
  buckets ≠ [] ∧
  Forall (λ item, key item ≠ "Date" ∧ trend_period item ≠ [] ∧
                  NoDup (trend_period item).*1) buckets ∧
  Forall (λ label, is_Some (to_datetime label)) (labels buckets).

#[export] Instance well_formed_dec buckets : Decision (well_formed buckets).
Proof. unfold well_formed. apply _. Defined.

End TrendNotions.

Section TrendExamples.
Import Home.

(** The example of the specification. *)
Definition checking_example : list CategoryBucket :=
  [ {| key := "Checking"; trend_period := [("2024-01-01", 3); ("2024-02-01", 5)] |};
    {| key := "Credit Card"; trend_period := [("2024-02-01", 2)] |} ].

(** A category that holds the same timestamp label twice. *)
Definition repeated_label_example : list CategoryBucket :=
  [ {| key := "Checking"; trend_period := [("2024-01-01", 3); ("2024-01-01", 5)] |} ].

(** A count above 2^53, in a category that lacks a period of the
    other one. *)
Definition large_count_example : list CategoryBucket :=
  [ {| key := "Checking"; trend_period := [("2024-01-01", 3); ("2024-02-01", 5)] |};
    {| key := "Credit Card"; trend_period := [("2024-02-01", 9007199254740993)] |} ].

(** Two categories, each in ascending order of date; the second one
    begins a month before the first. *)
Definition late_start_example : list CategoryBucket :=
  [ {| key := "Checking"; trend_period := [("2024-02-01", 5)] |};
    {| key := "Credit Card"; trend_period := [("2024-01-01", 2); ("2024-02-01", 4)] |} ].

(** The dates never go back from one row to the next. *)
Definition ascending (dates : list CalendarDate) : Prop :=
  ∀ i a b, dates !! i = Some a → dates !! S i = Some b → date_le a b.

(** The reading of C3 as it is written. *)
Definition rows_are_sorted (buckets : list CategoryBucket) : Prop :=
  ∀ t, TrendReshaper iso_date buckets = Return t → ascending (Date t).

End TrendExamples.

(** * Home.py: the calls of [fetch_data] and the page *)

Module Caller.
Import CFPBApiClient.

(** What the calling code can raise: the exceptions of the client and of
    pandas, and [TypeError]. *)
Inductive PyException :=
| Of (e : Exception)
| TypeError.

Inductive Attempt (A : Type) :=
| Returned (a : A)
| Raised (e : PyException).
Arguments Returned {A} a.
Arguments Raised {A} e.

#[export] Instance Attempt_bind : MBind Attempt := λ A B k m,
  match m with
  | Returned a => k a
  | Raised e => Raised e
  end.

(** An exception of the callee goes on to the caller. *)
Definition propagate {A} (o : Outcome A) : Attempt A :=
  match o with
  | Return a => Returned a
  | Raise e => Raised (Of e)
  end.

(** [container[key]] with a string for [key], on a decoded JSON value:
    only an object can be subscripted by a string, and it has to hold
    the key. *)
Definition getitem (container : Json) (key : string) : Attempt Json :=
  match container with
  | JDict d =>
      match (list_to_map d : gmap string Json) !! key with
      | Some value => Returned value
      | None => Raised (Of (KeyError key))
      end
  | _ => Raised TypeError
  end.

(** The items [for item in container] goes through: the elements of an
    array, the keys of an object, the characters of a string. *)
Definition iterate (container : Json) : Attempt (list Json) :=
  match container with
  | JList l => Returned l
  | JDict d => Returned (JStr <$> d.*1)
  | JStr s => Returned ((λ c, JStr (String c EmptyString)) <$> list_ascii_of_string s)
  | _ => Raised TypeError
  end.

(** [[body(item) for item in items]]: from left to right, up to the
    first exception. *)
Fixpoint for_each {A B} (body : A → Attempt B) (items : list A) : Attempt (list B) :=
  match items with
  | [] => Returned []
  | item :: items' =>
      b ← body item;
      bs ← for_each body items';
      Returned (b :: bs)
  end.

(** [client.f(k1=v1, ..., **kwargs)] for a method [f(self, **kwargs)]:
    the keywords written out come first; a name given both ways is a
    [TypeError] raised before [f] is entered, and so is the name [self],
    which the bound method has given a value already. *)
Definition keywords (explicit kwargs : list (string * Value)) : Attempt Kwargs :=
  if bool_decide (Exists (λ k, k ∈ kwargs.*1) ("self" :: explicit.*1))
  then Raised TypeError
  else Returned (explicit ++ kwargs).

Section FetchData.
Variable requests_get : Transport.

(** Lines 95-99: [client.search_complaints(field="all",
    sort="created_date_desc", **kwargs)]. *)
Definition search_call (kwargs : Kwargs) : Attempt Call :=
  args ← keywords [("field", VStr "all"); ("sort", VStr "created_date_desc")] kwargs;
  Returned (search_complaints requests_get args).

(** Line 101: [[hit['_source'] for hit in search_results['hits']['hits']]],
    the records the frame of results is made of. *)
Definition search_sources (kwargs : Kwargs) : Attempt (list Json) :=
  c ← search_call kwargs;
  search_results ← propagate (result c);
  hits ← getitem search_results "hits";
  hits ← getitem hits "hits";
  hits ← iterate hits;
  for_each (λ hit, getitem hit "_source") hits.

(** Lines 115-121: [client.get_trend(field="all", trend_interval="month",
    lens='product', sub_lens='sub_product', **kwargs)]. *)
Definition trend_call (kwargs : Kwargs) : Attempt Call :=
  args ← keywords [("field", VStr "all"); ("trend_interval", VStr "month");
                   ("lens", VStr "product"); ("sub_lens", VStr "sub_product")] kwargs;
  Returned (get_trend requests_get args).

(** Line 124: the items of
    [trend['aggregations']['product']['product']['buckets']] the loop
    goes through. *)
Definition trend_items (kwargs : Kwargs) : Attempt (list Json) :=
  c ← trend_call kwargs;
  trend ← propagate (result c);
  aggregations ← getitem trend "aggregations";
  product ← getitem aggregations "product";
  product ← getitem product "product";
  buckets ← getitem product "buckets";
  iterate buckets.

End FetchData.

(** Line 282: [st.session_state['summary'].replace('$', '\$')], the
    text handed to [st.info]: a backslash before every dollar sign. *)
Definition escape_dollars (summary : list N) : list N :=
  summary ≫= (λ c, if bool_decide (c = 36%N) then [92%N; 36%N] else [c]).

End Caller.

Section FurtherNotions.
Import Home.
Context `{UnicodeDB}.

(** The sum of a column. *)
Definition total (cells : list Z) : Z := foldr Z.add 0 cells.

(** Every category has the periods [idx], in that order. *)
Definition same_index (idx : list string) (buckets : list CategoryBucket) : Prop :=
  Forall (λ item, (trend_period item).*1 = idx) buckets.

(** No [X] of [out] begins a word: each one follows a word character,
    [w] telling whether [out] itself follows one. *)
Fixpoint no_bare_X (w : bool) (out : Text) : Prop :=
  match out with
  | [] => True
  | c :: out' => (c = X → w = true) ∧ no_bare_X (is_word c) out'
  end.

(** Two category buckets that carry the same label. *)
Definition shared_label_example : list CategoryBucket :=
  [ {| key := "Checking"; trend_period := [("2024-01-01", 3)] |};
    {| key := "Checking"; trend_period := [("2024-02-01", 5)] |} ].

(** The body of a search answer and of the hits in it, as the service
    documents them: under [hits.hits], an array of objects that hold
    the record under [_source]. *)
Definition holds (container : Json) (key : string) (value : Json) : Prop :=
  ∃ d, container = JDict d ∧ (list_to_map d : gmap string Json) !! key = Some value.

End FurtherNotions.

(** * Properties of the client *)

Section ClientProperties.
Import CFPBApiClient.

Implicit Types (e : Endpoint) (get : Transport) (kwargs : Kwargs).

Lemma params_call e get kwargs :
  params (call e get kwargs) = filter (λ kv, kv.1 ∈ valid_params e) kwargs.
Proof. by destruct e. Qed.

Lemma reported_call e get kwargs :
  reported (call e get kwargs) = filter (λ k, k ∉ valid_params e) kwargs.*1.
Proof.
  destruct e; unfold reported; simpl.
  - by destruct (filter _ kwargs.*1); simpl; rewrite ?app_nil_r.
  - by destruct (filter _ kwargs.*1); simpl; rewrite ?app_nil_r.
Qed.

Lemma response_call e get kwargs :
  response (call e get kwargs)
  = get (url (call e get kwargs)) (params (call e get kwargs)).
Proof. by destruct e. Qed.

Lemma result_call e get kwargs :
  let c := call e get kwargs in
  result c = if (status_code (response c) =? 200)%Z then json (response c)
             else Return (error_payload (status_code (response c))).
Proof. by destruct e. Qed.

Lemma url_call e get kwargs :
  url (call e get kwargs)
  = match e with Search => base_url | Trend => base_url +:+ "trends/" end.
Proof. by destruct e. Qed.

(** Filtering by key commutes with reading the list as a mapping. *)
Lemma dict_filter (valid : list string) kwargs :
  dict (filter (λ kv, kv.1 ∈ valid) kwargs)
  = filter (λ kv, kv.1 ∈ valid) (dict kwargs).
Proof.
  unfold dict. induction kwargs as [|[k v] kwargs IH].
  - symmetry. apply map_filter_empty.
  - rewrite filter_cons. destruct (decide ((k, v).1 ∈ valid)) as [Hk|Hk].
    + by rewrite !list_to_map_cons, IH, map_filter_insert_True.
    + by rewrite list_to_map_cons, IH, map_filter_insert_not.
Qed.

Lemma filter_params_idem (valid : list string) kwargs :
  filter (λ kv : string * Value, kv.1 ∈ valid) (filter (λ kv, kv.1 ∈ valid) kwargs)
  = filter (λ kv, kv.1 ∈ valid) kwargs.
Proof. by apply list_filter_filter_r. Qed.

(** C5. For either endpoint and every mapping of query options, the
    keys of the parameters that are sent are keys of the input and
    names of the endpoint's allow-list, and the sent mapping is
    included in the input mapping: a kept key has the value it had. *)
Theorem ParameterFilter_keeps_allowed_entries e get kwargs :
  let sanitized := params (call e get kwargs) in
  dom (dict sanitized) ⊆ dom (dict kwargs) ∧
  dom (dict sanitized) ⊆ list_to_set (valid_params e) ∧
  dict sanitized ⊆ dict kwargs ∧
  (∀ k v, dict sanitized !! k = Some v → dict kwargs !! k = Some v).
Proof.
  simpl. rewrite params_call, dict_filter. split_and!.
  - apply dom_filter_subseteq.
  - intros k [v Hv]%elem_of_dom.
    apply map_lookup_filter_Some in Hv as [_ Hk]. simpl in Hk.
    by apply elem_of_list_to_set.
  - apply map_filter_subseteq.
  - intros k v Hv. by apply map_lookup_filter_Some in Hv as [? _].
Qed.

(** C10. Filtering the parameters kept by a first pass against the
    same endpoint's allow-list gives exactly those parameters again. *)
Theorem ParameterFilter_idempotent e get get' kwargs :
  params (call e get' (params (call e get kwargs))) = params (call e get kwargs).
Proof. rewrite !params_call. apply filter_params_idem. Qed.

(** C7. Each of the three operations answers a response whose status
    code is not 200 by returning the value
    [{"error": "Failed to fetch data", "status_code": code}], an object
    with these two entries and the code of the response, without
    raising; on status 200 it returns what [response.json()] gives,
    the decoded body. *)
Theorem non_200_is_returned_as_error_payload get kwargs (complaintId : string) (c : Call) :
  c ∈ [search_complaints get kwargs; get_trend get kwargs; get_complaint get complaintId] →
  response c = get (url c) (params c) ∧
  (status_code (response c) ≠ 200 →
     result c = Return (JDict [("error", JStr "Failed to fetch data");
                               ("status_code", JInt (status_code (response c)))])) ∧
  (status_code (response c) = 200 → result c = json (response c)) ∧
  (∀ body, status_code (response c) = 200 → json (response c) = Return body →
     result c = Return body).
Proof.
  intros Hc.
  assert (Hres : result c = (if (status_code (response c) =? 200)%Z then json (response c)
                             else Return (error_payload (status_code (response c))))
                 ∧ response c = get (url c) (params c)).
  { repeat (apply elem_of_cons in Hc as [->|Hc]; [done|]).
    by apply elem_of_nil in Hc. }
  destruct Hres as [Hres Hresp]. split_and!; [done|..].
  - intros Hne. rewrite Hres. by apply Z.eqb_neq in Hne as ->.
  - intros Heq. rewrite Hres. by apply Z.eqb_eq in Heq as ->.
  - intros body Heq Hbody. rewrite Hres. apply Z.eqb_eq in Heq as ->. done.
Qed.

Lemma non_200_is_returned_as_error_payload_witness :
  let get : Transport := λ _ _, {| status_code := 503; json := Raise JSONDecodeError |} in
  result (get_trend get [("lens", VStr "product")])
  = Return (JDict [("error", JStr "Failed to fetch data"); ("status_code", JInt 503)]).
Proof.
  intros get.
  refine (proj1 (proj2 (non_200_is_returned_as_error_payload get [("lens", VStr "product")] "1"
                          (get_trend get [("lens", VStr "product")]) _)) _).
  - apply elem_of_cons; right. apply elem_of_cons; by left.
  - intros Heq. vm_compute in Heq. discriminate Heq.
Defined.

(** C4 does not hold as written: [search_complaints] returns the same
    value for [{"size": 20, "bogus_key": "x"}] and for [{"size": 20}],
    though the rejected keys are [["bogus_key"]] and [[]]. *)
Lemma rejected_keys_are_not_returned : ¬ rejected_keys_are_returned Search.
Proof.
  intros [rejected_of Hrej].
  pose proof (Hrej answers_null example_options) as H1.
  pose proof (Hrej answers_null [("size", VInt 20)]) as H2.
  vm_compute in H1, H2. congruence.
Qed.

(** C4, amended. For either endpoint and every mapping of query
    options, the parameters sent with the request are exactly the
    entries whose key is in the endpoint's allow-list, in their
    order, and the rejected keys are written to standard output (one
    line, when there is any), not returned: the caller gets what it
    would get had it passed the kept entries only.  For
    [{"size": 20, "bogus_key": "x"}], [search_complaints] sends
    [{"size": 20}] and prints the rejected list [["bogus_key"]]. *)
Theorem ParameterFilter_prints_rejected_keys e get kwargs :
  let c := call e get kwargs in
  params c = filter (λ kv, kv.1 ∈ valid_params e) kwargs ∧
  (∀ kv, kv ∈ params c ↔ kv ∈ kwargs ∧ kv.1 ∈ valid_params e) ∧
  reported c = filter (λ k, k ∉ valid_params e) kwargs.*1 ∧
  (∀ k, k ∈ reported c ↔ k ∈ kwargs.*1 ∧ k ∉ valid_params e) ∧
  result c = result (call e get (params c)) ∧
  params (search_complaints get example_options) = [("size", VInt 20)] ∧
  stdout (search_complaints get example_options)
  = [PrintParams "Search Complaints" [("size", VInt 20)]; PrintInvalid ["bogus_key"]].
Proof.
  simpl. split_and!.
  - apply params_call.
  - intros kv. rewrite params_call, list_elem_of_filter. tauto.
  - apply reported_call.
  - intros k. rewrite reported_call, list_elem_of_filter. tauto.
  - pose proof (result_call e get kwargs) as H1.
    pose proof (result_call e get (params (call e get kwargs))) as H2.
    simpl in H1, H2. rewrite H1, H2, !response_call, !url_call, !params_call.
    by rewrite filter_params_idem.
  - by vm_compute.
  - by vm_compute.
Qed.

End ClientProperties.

(** * Properties of the redactor *)

Section RedactorProperties.
Import Home.
Context `{UnicodeDB}.

Implicit Types (c : Char) (s r t : Text) (p q : Pos) (w : bool).

Lemma is_X_spec c : is_X c = true ↔ c = X.
Proof.
  unfold is_X. rewrite bool_decide_eq_true. split; [|by intros ->].
  intros Heq. by injection Heq.
Qed.

Lemma is_X_X : is_X X = true.
Proof. by apply is_X_spec. Qed.

Lemma is_word_X : is_word X = true.
Proof. by vm_compute. Qed.

Lemma is_sep_X : is_sep X = false.
Proof. by vm_compute. Qed.

Lemma is_sep_not_X c : is_sep c = true → is_X c = false.
Proof.
  intros Hsep. destruct (is_X c) eqn:HX; [|done].
  apply is_X_spec in HX as ->. by rewrite is_sep_X in Hsep.
Qed.

(** *** The matcher on the pattern *)

Lemma head_bind_nonempty {A B} (f : A → list B) (l : list A) :
  (∀ a, f a ≠ []) → head (l ≫= f) = (a ← head l; head (f a)).
Proof.
  intros Hf. destruct l as [|a l]; [done|]. simpl.
  specialize (Hf a). by destruct (f a).
Qed.

Lemma head_app_Some {A} (l k : list A) (x : A) :
  head l = Some x → head (l ++ k) = Some x.
Proof. by destruct l. Qed.

Lemma repeat_greedy_nonempty step n p : repeat_greedy step n p ≠ [].
Proof. destruct n; [done|]. simpl. by intros [_ ?]%app_eq_nil. Qed.

Lemma repeat_greedy_shorter step n p q :
  q ∈ repeat_greedy step n p → (length q.2 ≤ length p.2)%nat.
Proof.
  revert p. induction n as [|n IH]; intros p; simpl.
  - by intros ->%list_elem_of_singleton.
  - intros [Hq| ->%list_elem_of_singleton]%elem_of_app; [|done].
    apply list_elem_of_bind in Hq as (p' & Hq & Hp').
    apply list_elem_of_filter in Hp' as [Hlt _].
    apply IH in Hq. lia.
Qed.

Lemma skip_X_length s : (length (skip_X s) ≤ length s)%nat.
Proof. induction s as [|c r IH]; simpl; [done|]. destruct (is_X c); simpl; lia. Qed.

Lemma skip_X_head s : starts_with_X (skip_X s) = false.
Proof. induction s as [|c r IH]; simpl; [done|]. by destruct (is_X c) eqn:HX. Qed.

Lemma run_end_skip_X s : run_end (skip_X s) = run_end s.
Proof.
  induction s as [|c r IH]; [done|]. simpl skip_X.
  destruct (is_X c) eqn:HX; [|done]. simpl. by rewrite HX.
Qed.

Lemma run_end_length s : (length (run_end s) ≤ length s)%nat.
Proof.
  induction s as [s IH] using (induction_ltof1 _ length). unfold ltof in IH.
  destruct s as [|c r]; simpl; [done|].
  destruct (is_X c); [specialize (IH r); simpl in IH; lia|].
  destruct (is_sep c); [|done].
  destruct r as [|d r']; [done|].
  destruct (is_X d); [|done].
  specialize (IH r'). simpl in IH. simpl. lia.
Qed.

Lemma run_end_head s : starts_with_X (run_end s) = false.
Proof.
  induction s as [s IH] using (induction_ltof1 _ length). unfold ltof in IH.
  destruct s as [|c r]; simpl; [done|].
  destruct (is_X c) eqn:HX; [apply IH; simpl; lia|].
  destruct (is_sep c); [|by simpl].
  destruct r as [|d r']; [by simpl|].
  destruct (is_X d); [|by simpl].
  apply IH. simpl. lia.
Qed.

(** [X+] read from just after its first [X]. *)
Lemma match_more_X n r :
  (length r ≤ n)%nat →
  head (repeat_greedy (run (Lit "X")) n (Some X, r)) = Some (Some X, skip_X r).
Proof.
  revert r. induction n as [|n IH]; intros r Hn.
  - destruct r; [done|simpl in Hn; lia].
  - destruct r as [|c r]; [done|].
    cbn [repeat_greedy run snd]. fold (is_X c). simpl skip_X.
    destruct (is_X c) eqn:HX.
    + apply is_X_spec in HX as ->.
      rewrite filter_cons_True by (simpl; lia).
      rewrite filter_nil, bind_cons. simpl. rewrite app_nil_r.
      pose proof (repeat_greedy_nonempty (run (Lit "X")) n (Some X, r)) as Hne.
      specialize (IH r ltac:(simpl in Hn; lia)).
      by destruct (repeat_greedy _ n (Some X, r)).
    + done.
Qed.

Lemma match_X_plus prev s :
  head (run (Plus (Lit "X")) (prev, s))
  = if starts_with_X s then Some (Some X, skip_X s) else None.
Proof.
  destruct s as [|c r]; [done|].
  cbn [run snd starts_with_X]. fold (is_X c). simpl skip_X.
  destruct (is_X c) eqn:HX; [|done].
  apply is_X_spec in HX as ->.
  rewrite bind_cons. simpl. rewrite app_nil_r. by apply match_more_X.
Qed.

Lemma run_X_plus_none prev s :
  starts_with_X s = false → run (Plus (Lit "X")) (prev, s) = [].
Proof.
  destruct s as [|c r]; [done|].
  cbn [run snd starts_with_X]. fold (is_X c). by intros ->.
Qed.

Lemma run_X_plus_shorter prev s q :
  q ∈ run (Plus (Lit "X")) (prev, s) → (length q.2 < length s)%nat.
Proof.
  destruct s as [|c r]; [by intros ?%elem_of_nil|].
  cbn [run snd]. destruct (bool_decide _); [|by intros ?%elem_of_nil].
  rewrite bind_cons. simpl. rewrite app_nil_r.
  intros Hq%repeat_greedy_shorter. simpl in Hq. lia.
Qed.

Lemma run_group prev s :
  run group (prev, s)
  = match s with
    | c :: r => if is_sep c then run (Plus (Lit "X")) (Some c, r) else []
    | [] => []
    end.
Proof.
  destruct s as [|c r]; [done|].
  unfold group, is_sep. cbn [run snd].
  destruct (existsb _ _); [done|]. simpl negb. cbv iota.
  rewrite bind_cons. simpl. by rewrite app_nil_r.
Qed.

Lemma filter_all {A} (P : A → Prop) `{!∀ x, Decision (P x)} (l : list A) :
  (∀ x, x ∈ l → P x) → filter P l = l.
Proof.
  induction l as [|x l IH]; intros Hall; [done|].
  rewrite filter_cons_True by (apply Hall; by left).
  f_equal. apply IH. intros y Hy. apply Hall. by right.
Qed.

(** The star of the group, read from just after an [X]. *)
Lemma match_groups n t :
  (length t ≤ n)%nat → starts_with_X t = false →
  head (repeat_greedy (run group) n (Some X, t)) = Some (Some X, run_end t).
Proof.
  revert t. induction n as [|n IH]; intros t Hn Ht.
  - destruct t; [done|simpl in Hn; lia].
  - cbn [repeat_greedy]. rewrite run_group.
    destruct t as [|c r]; [done|]. simpl in Ht. simpl run_end. rewrite Ht.
    destruct (is_sep c) eqn:Hsep; [|done].
    destruct (starts_with_X r) eqn:Hr.
    + rewrite filter_all
        by (intros q Hq%run_X_plus_shorter; simpl; lia).
      assert (head (run (Plus (Lit "X")) (Some c, r) ≫= repeat_greedy (run group) n)
              = Some (Some X, run_end r)) as Hbind.
      { rewrite head_bind_nonempty by apply repeat_greedy_nonempty.
        rewrite match_X_plus, Hr. cbn [mbind option_bind].
        rewrite IH, ?run_end_skip_X; [done| |apply skip_X_head].
        pose proof (skip_X_length r). simpl in Hn. lia. }
      rewrite (head_app_Some _ _ _ Hbind).
      destruct r as [|d r']; [done|]. simpl in Hr. simpl. by rewrite Hr.
    + rewrite run_X_plus_none by done. simpl.
      destruct r as [|d r']; [done|]. simpl in Hr. by rewrite Hr.
Qed.

Lemma run_Seq (a b : Regex) p : run (Seq a b) p = run a p ≫= run b.
Proof. done. Qed.

Lemma run_Star (a : Regex) p : run (Star a) p = repeat_greedy (run a) (length p.2) p.
Proof. done. Qed.

Lemma run_WordBoundary p : run WordBoundary p = if at_boundary p then [p] else [].
Proof. done. Qed.

(** One attempt of the pattern at a position. *)
Lemma match_pattern prev s :
  re_match pattern (prev, s)
  = if starts_with_X s && negb (word_at prev)
    then Some (Some X, run_end (tail s)) else None.
Proof.
  unfold re_match.
  change pattern with (Seq WordBoundary (Seq (Plus (Lit "X")) (Star group))).
  rewrite run_Seq, run_WordBoundary. unfold at_boundary. cbn [fst snd].
  destruct (starts_with_X s) eqn:Hs.
  - destruct s as [|c r]; [done|]. simpl in Hs. apply is_X_spec in Hs as ->.
    cbn [head word_at tail]. rewrite is_word_X.
    destruct (word_at prev); [done|].
    cbn [xorb negb andb]. rewrite bind_cons, app_nil_r, run_Seq.
    rewrite head_bind_nonempty by (intros; apply repeat_greedy_nonempty).
    rewrite match_X_plus. cbn [starts_with_X skip_X mbind option_bind].
    rewrite is_X_X. change (head (run (Star group) (Some X, skip_X r)) = Some (Some X, run_end r)).
    rewrite run_Star. cbn [snd].
    rewrite match_groups; [|done|apply skip_X_head].
    by rewrite run_end_skip_X.
  - cbn [andb]. destruct (xorb _ _); [|done].
    rewrite bind_cons, app_nil_r, run_Seq.
    by rewrite run_X_plus_none.
Qed.

Lemma scan_after_word c s :
  scan (Outside true) (c :: s) = c :: scan (Outside (is_word c)) s.
Proof. simpl. by rewrite andb_false_r. Qed.

Lemma scan_not_X w c s :
  is_X c = false → scan (Outside w) (c :: s) = c :: scan (Outside (is_word c)) s.
Proof. intros HX. simpl. by rewrite HX. Qed.

Lemma scan_inside s : scan Inside s = scan (Outside true) (run_end s).
Proof.
  induction s as [s IH] using (induction_ltof1 _ length). unfold ltof in IH.
  destruct s as [|c r]; [done|]. cbn [scan run_end].
  destruct (is_X c) eqn:HX; [apply IH; simpl; lia|].
  destruct (is_sep c) eqn:Hsep; cbn [andb].
  - destruct r as [|d r']; cbn [starts_with_X]; [by rewrite scan_after_word|].
    destruct (is_X d) eqn:Hd; [|by rewrite scan_after_word].
    cbn [scan]. rewrite Hd. apply IH. simpl. lia.
  - by rewrite scan_after_word.
Qed.

Lemma sub_from_scan n prev s :
  (length s < n)%nat →
  sub_from pattern replacement n prev s = scan (Outside (word_at prev)) s.
Proof.
  revert prev s. induction n as [|n IH]; intros prev s Hn; [lia|].
  cbn [sub_from]. rewrite match_pattern.
  destruct s as [|c r]; [done|]. simpl in Hn. cbn [starts_with_X tail scan].
  destruct (is_X c && negb (word_at prev)).
  - pose proof (run_end_length r).
    rewrite bool_decide_eq_true_2 by (simpl; lia).
    rewrite IH by lia. simpl. rewrite is_word_X. by rewrite scan_inside.
  - by rewrite IH by lia.
Qed.

(** The substitution is the pass [scan], begun outside of a run at
    the start of the text. *)
Lemma re_sub_scan s : re_sub pattern replacement s = scan (Outside false) s.
Proof. unfold re_sub. by rewrite sub_from_scan by lia. Qed.


(** *** Mask runs *)

Lemma run_end_stops s : stops (run_end s).
Proof.
  induction s as [s IH] using (induction_ltof1 _ length). unfold ltof in IH.
  destruct s as [|c r]; [done|]. cbn [run_end].
  destruct (is_X c) eqn:HX; [apply IH; simpl; lia|].
  assert (c ≠ X) as Hc by (intros ->; by rewrite is_X_X in HX).
  destruct (is_sep c) eqn:Hsep.
  - destruct r as [|d r']; [by split; [|intros [_ ?]]|].
    destruct (is_X d) eqn:Hd; [apply IH; simpl; lia|].
    split; [done|]. simpl. rewrite Hd. by intros [_ ?].
  - split; [done|]. intros [? _]. congruence.
Qed.

Lemma run_end_split s : ∃ t, s = t ++ run_end s ∧ MaskTail t.
Proof.
  induction s as [s IH] using (induction_ltof1 _ length). unfold ltof in IH.
  destruct s as [|c r]; [exists []; split; [done|constructor]|]. cbn [run_end].
  destruct (is_X c) eqn:HX.
  { apply is_X_spec in HX as ->.
    destruct (IH r) as (t & Hr & Ht); [simpl; lia|].
    exists (X :: t). split; [by rewrite <-app_comm_cons, <-Hr|by constructor]. }
  destruct (is_sep c) eqn:Hsep; [|exists []; split; [done|constructor]].
  destruct r as [|d r']; [exists []; split; [done|constructor]|].
  destruct (is_X d) eqn:Hd; [|exists []; split; [done|constructor]].
  apply is_X_spec in Hd as ->.
  destruct (IH r') as (t & Hr & Ht); [simpl; lia|].
  exists (c :: X :: t). split; [by rewrite <-!app_comm_cons, <-Hr|by constructor].
Qed.

Lemma run_end_app t (q : Text) : MaskTail t → stops q → run_end (t ++ q) = q.
Proof.
  intros Ht Hq. induction Ht as [|t Ht IH|c t Hsep Ht IH].
  - destruct q as [|c q']; [done|]. destruct Hq as [Hc Hq]. simpl.
    destruct (is_X c) eqn:HX; [by apply is_X_spec in HX|].
    destruct (is_sep c); [|done].
    destruct q' as [|d q'']; [done|]. simpl in Hq.
    destruct (is_X d); [|done]. by destruct Hq.
  - rewrite <-app_comm_cons. cbn [run_end]. by rewrite is_X_X.
  - rewrite <-!app_comm_cons. cbn [run_end].
    by rewrite (is_sep_not_X c Hsep), Hsep, is_X_X.
Qed.

Lemma scan_Redacted w s : Redacted w s (scan (Outside w) s).
Proof.
  revert w. induction s as [s IH] using (induction_ltof1 _ length).
  unfold ltof in IH. intros w.
  destruct s as [|c r]; [constructor|]. cbn [scan].
  destruct (is_X c && negb w) eqn:Hm.
  - apply andb_true_iff in Hm as [->%is_X_spec ->%negb_true_iff].
    rewrite scan_inside.
    destruct (run_end_split r) as (t & Hr & Ht).
    rewrite Hr at 1. rewrite app_comm_cons.
    apply redacted_run; [by exists t|apply run_end_stops|].
    apply IH. pose proof (run_end_length r). simpl. lia.
  - apply redacted_copy; [|apply IH; simpl; lia].
    apply andb_false_iff in Hm as [HX|Hw].
    + right. intros ->. by rewrite is_X_X in HX.
    + left. by apply negb_false_iff.
Qed.

Lemma Redacted_scan w s (out : Text) : Redacted w s out → out = scan (Outside w) s.
Proof.
  induction 1 as [w|w c s out Hc _ IH|m q out (t & -> & Ht) Hq _ IH].
  - done.
  - cbn [scan]. destruct (is_X c && negb w) eqn:Hm; [|by rewrite IH].
    apply andb_true_iff in Hm as [->%is_X_spec ->%negb_true_iff].
    by destruct Hc.
  - rewrite <-app_comm_cons. cbn [scan]. rewrite is_X_X. cbn [negb andb].
    by rewrite scan_inside, run_end_app, IH.
Qed.

(** *** Truncation and a second pass *)

Lemma scan_prefix_fixed s : ∀ m n w',
  match m with
  | Outside w => w' = w ∨ starts_with_X s = false
  | Inside => True
  end →
  scan (Outside w') (take n (scan m s)) = take n (scan m s).
Proof.
  induction s as [|c r IH]; intros m n w' Hm; [by destruct m, n|].
  assert (∀ k, is_X c = false ∨ w' = true →
            scan (Outside w') (take k (c :: scan (Outside (is_word c)) r))
            = take k (c :: scan (Outside (is_word c)) r)) as Hcopy.
  { intros [|k] Hc; [done|]. cbn [take scan].
    replace (is_X c && negb w') with false
      by (by destruct Hc as [-> | ->]; rewrite ?andb_false_r).
    f_equal. apply IH. by left. }
  destruct m as [w|]; cbn [scan].
  - destruct (is_X c && negb w) eqn:Hmatch.
    + apply andb_true_iff in Hmatch as [HX ->%negb_true_iff].
      destruct Hm as [-> | Hs]; [|simpl in Hs; congruence].
      destruct n as [|[|[|n]]]; try done.
      change (take (S (S (S n))) (replacement ++ scan Inside r))
        with (replacement ++ take n (scan Inside r)).
      change (scan (Outside false) (replacement ++ take n (scan Inside r)))
        with (replacement ++ scan (Outside false) (take n (scan Inside r))).
      f_equal. by apply IH.
    + apply Hcopy. apply andb_false_iff in Hmatch as [HX|Hw]; [by left|].
      apply negb_false_iff in Hw as ->.
      destruct Hm as [-> | Hs]; [by right|by left].
  - destruct (is_X c) eqn:HX; [by apply IH|].
    destruct (is_sep c && starts_with_X r); [by apply IH|].
    apply Hcopy. by left.
Qed.


(** *** The redactor *)

Lemma NarrativeRedactor_scan s :
  NarrativeRedactor s = take 500 (scan (Outside false) s).
Proof. unfold NarrativeRedactor. by rewrite re_sub_scan. Qed.

Lemma clean_narratives_each (series : Series) :
  clean_narratives series = fmap (M:=option) NarrativeRedactor <$> series.
Proof.
  unfold clean_narratives, str_slice, cleanup_narratives.
  rewrite <-list_fmap_compose. apply list_fmap_ext.
  by intros _ [s|] _.
Qed.

Lemma example_narrative_redacted :
  NarrativeRedactor example_narrative = text "Account [R]123 was closed".
Proof. rewrite NarrativeRedactor_scan. by vm_compute. Qed.

(** A date masked as [XX/XX/XXXX] is one run; a mask that follows a
    letter is kept; two separators in a row end a run. *)
Example masked_date_is_one_run :
  NarrativeRedactor (text "aXXX and XX/XX/XXXX") = text "aXXX and [R]".
Proof. rewrite NarrativeRedactor_scan. by vm_compute. Qed.

Example two_separators_end_a_run :
  NarrativeRedactor (text "XX  XX") = text "[R]  [R]".
Proof. rewrite NarrativeRedactor_scan. by vm_compute. Qed.

(** C6, amended. The substitution replaces by [[R]] every mask run
    that begins at a word boundary: one or more [X], then any number
    of groups of one character that is neither an ASCII letter nor a
    digit followed by one or more [X], read as far as it goes; every
    other character is copied, so an [X] that follows a letter, a
    digit or an underscore stays, and so do the digits after a run.
    On ["Account XXXX123 was closed"] the redactor returns
    ["Account [R]123 was closed"]. *)
Theorem mask_runs_at_word_boundaries_are_replaced s (out : Text) :
  (Redacted false s out ↔ re_sub pattern replacement s = out) ∧
  NarrativeRedactor example_narrative = text "Account [R]123 was closed".
Proof.
  split; [|apply example_narrative_redacted].
  rewrite re_sub_scan. split.
  - by intros ->%Redacted_scan.
  - intros <-. apply scan_Redacted.
Qed.

(** C8. Whatever the narrative, the redactor's output has at most 500
    characters; so has every entry of the column [clean_narratives]. *)
Theorem NarrativeRedactor_at_most_500 s (series : Series) :
  (length (NarrativeRedactor s) ≤ 500)%nat ∧
  (∀ out, Some out ∈ clean_narratives series → (length out ≤ 500)%nat).
Proof.
  assert (∀ t, (length (NarrativeRedactor t) ≤ 500)%nat) as Hlen.
  { intros t. unfold NarrativeRedactor. rewrite length_take. lia. }
  split; [done|]. intros out. rewrite clean_narratives_each.
  intros ([t|] & Hout & _)%list_elem_of_fmap; [|done].
  injection Hout as ->. apply Hlen.
Qed.

(** C9. Redacting and truncating a second time changes nothing, for
    one narrative and for the whole column. *)
Theorem NarrativeRedactor_idempotent s (series : Series) :
  NarrativeRedactor (NarrativeRedactor s) = NarrativeRedactor s ∧
  clean_narratives (clean_narratives series) = clean_narratives series.
Proof.
  assert (∀ t, NarrativeRedactor (NarrativeRedactor t) = NarrativeRedactor t) as Hidem.
  { intros t. rewrite !NarrativeRedactor_scan.
    rewrite scan_prefix_fixed by (by left). apply take_idemp. }
  split; [done|]. rewrite !clean_narratives_each, <-list_fmap_compose.
  apply list_fmap_ext. intros _ [t|] _; [|done]. simpl. by rewrite Hidem.
Qed.

End RedactorProperties.

(** C6 does not hold as written: on the specification's own example the
    digits that follow the masked block are kept. *)
Lemma example_is_not_redacted_as_specified :
  ¬ @example_is_redacted_as_specified Home.latin1.
Proof.
  unfold example_is_redacted_as_specified.
  rewrite example_narrative_redacted. by vm_compute.
Qed.

(** * Properties of the trend table *)

Section UniqueProperties.
Import Home.
Implicit Types (l k : list string) (x y : string).

Lemma elem_of_unique l x : x ∈ unique l ↔ x ∈ l.
Proof.
  induction l as [|y l IH]; [done|]. cbn [unique].
  rewrite !elem_of_cons, list_elem_of_filter, IH.
  destruct (decide (x = y)); tauto.
Qed.

Lemma NoDup_unique l : NoDup (unique l).
Proof.
  induction l as [|y l IH]; cbn [unique]; [constructor|].
  constructor; [|by apply NoDup_filter].
  rewrite list_elem_of_filter. by intros [? _].
Qed.

Lemma unique_NoDup l : NoDup l → unique l = l.
Proof.
  induction 1 as [|y l Hy _ IH]; [done|]. cbn [unique]. rewrite IH. f_equal.
  apply filter_all. by intros x Hx ->.
Qed.

Lemma unique_app l k :
  unique (l ++ k) = unique l ++ filter (λ y, y ∉ l) (unique k).
Proof.
  induction l as [|x l IH]; cbn [unique app].
  - symmetry. apply filter_all. intros y _. apply not_elem_of_nil.
  - f_equal. rewrite IH, filter_app. f_equal.
    rewrite list_filter_filter. apply list_filter_iff.
    intros y. rewrite not_elem_of_cons. tauto.
Qed.
End UniqueProperties.

Section TrendProperties.
Import Home.
Context {Timestamp : Type} (to_datetime : string → option Timestamp).

Implicit Types (item : CategoryBucket) (buckets : list CategoryBucket)
  (rows : list string) (label : string) (periods : list (string * Z)).

Lemma filter_none {A} (P : A → Prop) `{!∀ x, Decision (P x)} (l : list A) :
  (∀ x, x ∈ l → ¬ P x) → filter P l = [].
Proof.
  induction l as [|x l IH]; intros Hall; [done|].
  rewrite filter_cons_False by (apply Hall; by left).
  apply IH. intros y Hy. apply Hall. by right.
Qed.

(** *** Reindexing is a lookup in the category's periods *)

Lemma get_indexer_lookup periods label :
  (i ← get_indexer periods.*1 label; periods.*2 !! i)
  = (list_to_map periods : gmap string Z) !! label.
Proof.
  induction periods as [|[l0 v0] periods IH]; [done|].
  rewrite list_to_map_cons. unfold get_indexer in *. cbn [fmap list_fmap fst snd list_find].
  destruct (decide (l0 = label)) as [->|Hne].
  - by rewrite lookup_insert_eq.
  - rewrite lookup_insert_ne by done. rewrite <-IH.
    destruct (list_find _ periods.*1) as [[i x]|]; done.
Qed.

Lemma take_nd_lookup item rows :
  take_nd (trend_period item).*1 (trend_period item).*2 rows
  = doc_count_at item <$> rows.
Proof.
  unfold take_nd, doc_count_at. apply list_fmap_ext.
  intros _ label _. apply get_indexer_lookup.
Qed.

Lemma doc_count_at_own_labels item :
  NoDup (trend_period item).*1 →
  doc_count_at item <$> (trend_period item).*1 = Some <$> (trend_period item).*2.
Proof.
  unfold doc_count_at. induction (trend_period item) as [|[l0 v0] periods IH];
    [done|].
  rewrite fmap_cons, NoDup_cons. intros [Hl0 Hnd].
  rewrite !fmap_cons, list_to_map_cons. cbn [fst snd].
  rewrite lookup_insert_eq. f_equal. rewrite <-IH by done.
  apply list_fmap_ext. intros i label Hi.
  rewrite lookup_insert_ne; [done|].
  intros ->. apply Hl0. by eapply list_elem_of_lookup_2.
Qed.

Lemma doc_count_at_None item label :
  doc_count_at item label = None ↔ label ∉ (trend_period item).*1.
Proof. unfold doc_count_at. symmetry. apply not_elem_of_list_to_map. Qed.

Lemma doc_count_at_Some item label n :
  NoDup (trend_period item).*1 →
  doc_count_at item label = Some n ↔ (label, n) ∈ trend_period item.
Proof. intros Hnd. unfold doc_count_at. symmetry. by apply elem_of_list_to_map. Qed.

Lemma doc_count_at_count item label n :
  doc_count_at item label = Some n → n ∈ (trend_period item).*2.
Proof.
  unfold doc_count_at. intros Hn%elem_of_list_to_map_2.
  by apply (list_elem_of_fmap_2 snd _ (label, n)).
Qed.

Lemma all_taken item rows :
  Forall is_Some (doc_count_at item <$> rows)
  ↔ Forall (λ label, label ∈ (trend_period item).*1) rows.
Proof.
  rewrite Forall_fmap. apply Forall_proper; [|done]. intros label. cbn.
  rewrite <-not_eq_None_Some, doc_count_at_None. split; [apply dec_stable|auto].
Qed.

(** *** The conversion to float64 *)

Lemma float64_of_int_fits (n : Z) : fits_float64 n → float64_of_int n = n.
Proof.
  unfold fits_float64, float64_of_int. intros Hn.
  destruct (Z.leb_spec (Z.log2 (Z.abs n) - 52) 0) as [|Hshift]; [done|].
  assert (2 ^ 53 ≤ Z.abs n)%Z as Hlow.
  { destruct (Z.le_gt_cases (2 ^ 53) (Z.abs n)) as [|Hlt]; [done|].
    destruct (decide (Z.abs n = 0)) as [Hz|Hnz]; [rewrite Hz in Hshift; by vm_compute in Hshift|].
    apply Z.log2_lt_pow2 in Hlt; lia. }
  assert (n = 2 ^ 53 ∨ n = - 2 ^ 53)%Z as [-> | ->] by lia; by vm_compute.
Qed.

Lemma float64_of_int_nonneg (n : Z) : (0 ≤ n → 0 ≤ float64_of_int n)%Z.
Proof.
  unfold float64_of_int. intros Hn.
  destruct (Z.leb_spec (Z.log2 (Z.abs n) - 52) 0) as [|Hshift]; [done|].
  apply Z.mul_nonneg_nonneg; [by apply Z.sgn_nonneg|].
  apply Z.shiftl_nonneg.
  assert (0 ≤ Z.shiftr (Z.abs n) (Z.log2 (Z.abs n) - 52))%Z
    by (apply Z.shiftr_nonneg; lia).
  destruct (_ || _); lia.
Qed.

Lemma stored_as_it_is rows item n :
  ¬ upcast rows item ∨ fits_float64 n → stored rows item n = n.
Proof.
  unfold stored. intros [Hno|Hfit].
  - by rewrite decide_False.
  - destruct (decide _); [by apply float64_of_int_fits|done].
Qed.

Lemma stored_cases rows item n :
  stored rows item n = n ∨ stored rows item n = float64_of_int n.
Proof. unfold stored. destruct (decide _); auto. Qed.

Lemma reindex_cells_lookup item rows :
  reindex_cells (trend_period item).*1 (trend_period item).*2 rows
  = (joined_column rows item).2.
Proof.
  unfold reindex_cells, joined_column. cbn [snd]. rewrite take_nd_lookup.
  case_bool_decide as Hall.
  - apply all_taken in Hall. apply list_fmap_ext. intros _ label _.
    destruct (doc_count_at item label) as [n|]; [|done]. cbn.
    rewrite stored_as_it_is; [done|]. left. by intros [Hmiss _].
  - rewrite all_taken in Hall.
    destruct (dtype (trend_period item).*2) eqn:Hdtype.
    + rewrite <-list_fmap_compose. apply list_fmap_ext. intros _ label _. cbn.
      destruct (doc_count_at item label) as [n|]; [|done]. cbn.
      unfold stored. rewrite decide_True; [done|]. split; [done|by rewrite Hdtype].
    + rewrite <-list_fmap_compose. apply list_fmap_ext. intros _ label _. cbn.
      destruct (doc_count_at item label) as [n|]; [|done]. cbn.
      unfold stored. rewrite decide_True; [done|]. split; [done|by rewrite Hdtype].
    + apply list_fmap_ext. intros _ label _.
      destruct (doc_count_at item label) as [n|]; [|done]. cbn.
      rewrite stored_as_it_is; [done|]. left. by intros [_ Hobj].
Qed.


(** *** The steps of the reshaping on a well-formed response *)

Lemma collect_frames buckets :
  Forall (λ item, key item ≠ "Date" ∧ trend_period item ≠ []) buckets →
  collect buckets = Return (frame_of <$> buckets).
Proof.
  induction 1 as [|item buckets [Hkey Hperiods] _ IH]; [done|].
  cbn [collect]. rewrite IH, fmap_cons. unfold item_frame, frame_of at 2.
  destruct (trend_period item) as [|period periods]; [done|].
  by rewrite bool_decide_eq_false_2 by done.
Qed.

Lemma frames_index buckets : (frame_of <$> buckets) ≫= index = labels buckets.
Proof.
  unfold labels. induction buckets as [|item buckets IH]; [done|].
  by rewrite fmap_cons, !bind_cons, IH.
Qed.

Lemma frames_keep buckets :
  (frame_of <$> buckets) ≫= keep
  = (λ item, (key item, Some <$> (trend_period item).*2)) <$> buckets.
Proof.
  induction buckets as [|item buckets IH]; [done|].
  by rewrite !fmap_cons, bind_cons, IH.
Qed.

Lemma frames_reindex rows buckets :
  (frame_of <$> buckets) ≫= reindex rows = joined_column rows <$> buckets.
Proof.
  induction buckets as [|item buckets IH]; [done|].
  rewrite !fmap_cons, bind_cons, IH. unfold reindex at 1. cbn [frame_of columns index fmap list_fmap fst snd app].
  by rewrite reindex_cells_lookup.
Qed.

Lemma joined_column_own_labels item :
  NoDup (trend_period item).*1 →
  joined_column (trend_period item).*1 item = (key item, Some <$> (trend_period item).*2).
Proof.
  intros Hnd. unfold joined_column. f_equal.
  rewrite <-doc_count_at_own_labels by done.
  apply list_fmap_ext. intros _ label _.
  destruct (doc_count_at item label) as [n|]; [|done]. cbn.
  rewrite stored_as_it_is; [done|]. left. intros [Hmiss _]. apply Hmiss.
  by apply Forall_forall.
Qed.

Lemma concat_axis1_frames buckets :
  buckets ≠ [] →
  Forall (λ item, NoDup (trend_period item).*1) buckets →
  concat_axis1 (frame_of <$> buckets)
  = Return {| index := unique (labels buckets);
              columns := joined_column (unique (labels buckets)) <$> buckets |}.
Proof.
  intros Hne Hnd. destruct buckets as [|item0 rest]; [done|]. clear Hne.
  rewrite fmap_cons. unfold concat_axis1. rewrite <-fmap_cons.
  case_bool_decide as Hsame.
  - assert (∀ item, item ∈ item0 :: rest →
              (trend_period item).*1 = (trend_period item0).*1) as Hidx.
    { intros item [->|Hin]%elem_of_cons; [done|].
      rewrite Forall_fmap, Forall_forall in Hsame. by apply Hsame in Hin. }
    assert (unique (labels (item0 :: rest)) = (trend_period item0).*1) as ->.
    { unfold labels. rewrite bind_cons, unique_app.
      rewrite unique_NoDup by (by apply Forall_cons_1 in Hnd as [? _]).
      rewrite filter_none; [by rewrite app_nil_r|].
      intros label Hl Hout. rewrite elem_of_unique in Hl.
      apply list_elem_of_bind in Hl as (item & Hl & Hin).
      apply Hout. rewrite <-(Hidx item); [done|by right]. }
    rewrite frames_keep. do 2 f_equal.
    apply list_fmap_ext. intros _ item Hin%list_elem_of_lookup_2.
    rewrite <-(Hidx item Hin). rewrite joined_column_own_labels; [done|].
    rewrite Forall_forall in Hnd. by apply Hnd.
  - rewrite bool_decide_eq_true_2 by (by rewrite Forall_fmap).
    by rewrite frames_index, frames_reindex.
Qed.

Lemma to_datetime_column_parses rows :
  Forall (λ label, is_Some (to_datetime label)) rows →
  ∃ dates, to_datetime_column to_datetime rows = Return dates ∧
           Some <$> dates = to_datetime <$> rows.
Proof.
  induction 1 as [|label rows [ts Hts] _ (dates & Hdates & Heq)];
    [by exists []|].
  exists (ts :: dates). cbn [to_datetime_column].
  rewrite Hts, Hdates. split; [done|]. by rewrite !fmap_cons, Hts, Heq.
Qed.

Lemma fillna_joined rows buckets :
  fillna 0 (joined_column rows <$> buckets) = count_column rows <$> buckets.
Proof.
  unfold fillna. rewrite <-list_fmap_compose. apply list_fmap_ext.
  intros _ item _. unfold joined_column, count_column. cbn. f_equal.
  by rewrite <-list_fmap_compose.
Qed.

(** On a well-formed response the reshaping returns, and this is the
    table it returns. *)
Lemma TrendReshaper_well_formed buckets :
  well_formed to_datetime buckets →
  ∃ dates,
    Some <$> dates = to_datetime <$> unique (labels buckets) ∧
    TrendReshaper to_datetime buckets
    = Return {| Date := dates;
                counts := count_column (unique (labels buckets)) <$> buckets |}.
Proof.
  intros (Hne & Hitems & Hparse).
  destruct (to_datetime_column_parses (unique (labels buckets)))
    as (dates & Hdates & Heq).
  { rewrite Forall_forall in Hparse |- *.
    intros label Hl. rewrite elem_of_unique in Hl. by apply Hparse. }
  exists dates. split; [done|]. unfold TrendReshaper.
  rewrite collect_frames
    by (eapply Forall_impl; [exact Hitems|]; by intros item (? & ? & ?)).
  cbn [mbind Outcome_bind].
  rewrite concat_axis1_frames;
    [|done|eapply Forall_impl; [exact Hitems|]; by intros item (? & ? & ?)].
  cbn [mbind Outcome_bind]. unfold reset_index. cbn [columns index].
  rewrite bool_decide_eq_false_2.
  - cbn [mbind Outcome_bind columns index]. rewrite Hdates.
    cbn [mbind Outcome_bind]. by rewrite fillna_joined.
  - rewrite <-list_fmap_compose.
    intros (item & Hkey & Hin)%list_elem_of_fmap.
    rewrite Forall_forall in Hitems. apply Hitems in Hin as (Hk & _).
    by apply Hk.
Qed.


(** C1, amended. On a response with at least one category, where the
    category labels are pairwise distinct and none is [Date], every
    category has at least one period and no timestamp label twice, the
    labels parse, and no count is above 2^53 in magnitude, the
    reshaping returns a table with exactly one row per distinct
    timestamp label of the response and exactly one count column per
    category, named after it; a cell holds the category's count at the
    row's label, and 0 when the category has no entry at that label.
    (A count above 2^53 can come out rounded: the column of a category
    that lacks a row is a column of float64.) *)
Theorem TrendReshaper_one_row_per_label_one_column_per_category buckets :
  well_formed to_datetime buckets →
  NoDup (key <$> buckets) →
  Forall counts_fit_float64 buckets →
  ∃ t rows,
    TrendReshaper to_datetime buckets = Return t ∧
    reshaped to_datetime buckets t ∧
    NoDup rows ∧
    (∀ label, label ∈ rows ↔ ∃ item, item ∈ buckets ∧ label ∈ (trend_period item).*1) ∧
    Some <$> Date t = to_datetime <$> rows ∧
    length (Date t) = length rows ∧
    column_names t = "Date" :: (key <$> buckets) ∧
    NoDup (column_names t) ∧
    ∀ i j label item,
      rows !! i = Some label → buckets !! j = Some item →
      (label ∉ (trend_period item).*1 → cell t i j = Some 0) ∧
      (∀ n, (label, n) ∈ trend_period item → cell t i j = Some n).
Proof.
  intros Hwf Hkeys Hfit.
  destruct (TrendReshaper_well_formed buckets Hwf) as (dates & Hdates & Hrun).
  destruct Hwf as (_ & Hitems & _). rewrite Forall_forall in Hitems, Hfit.
  set (rows := unique (labels buckets)) in *.
  set (t := {| Date := dates; counts := count_column rows <$> buckets |}) in *.
  assert (∀ i j label item,
            rows !! i = Some label → buckets !! j = Some item →
            cell t i j = Some (default 0 (doc_count_at item label))) as Hcell.
  { intros i j label item Hi Hj. unfold cell, t. cbn [counts].
    rewrite list_lookup_fmap, Hj. cbn [fmap option_fmap option_map mbind option_bind].
    unfold count_column. cbn [snd]. rewrite list_lookup_fmap, Hi. cbn.
    destruct (doc_count_at item label) as [n|] eqn:Hn; [|done]. cbn.
    rewrite stored_as_it_is; [done|]. right.
    apply list_elem_of_lookup_2, Hfit in Hj. unfold counts_fit_float64 in Hj.
    rewrite Forall_forall in Hj. by apply Hj, (doc_count_at_count item label). }
  assert ((counts t).*1 = key <$> buckets) as Hnames.
  { unfold t. cbn [counts]. by rewrite <-list_fmap_compose. }
  exists t, rows. split_and!; try done.
  - exists rows. split_and!; try done.
    + apply NoDup_unique.
    + intros label. apply elem_of_unique.
  - apply NoDup_unique.
  - intros label. unfold rows. rewrite elem_of_unique. unfold labels.
    rewrite list_elem_of_bind. split; intros (item & ? & ?); by exists item.
  - apply (f_equal length) in Hdates. by rewrite !length_fmap in Hdates.
  - unfold column_names. by rewrite Hnames.
  - unfold column_names. rewrite Hnames. constructor; [|done].
    intros (item & Hkey & Hin)%list_elem_of_fmap.
    apply Hitems in Hin as (Hk & _). by apply Hk.
  - intros i j label item Hi Hj. rewrite (Hcell i j label item Hi Hj). split.
    + intros Hout%doc_count_at_None. by rewrite Hout.
    + intros n Hn. apply doc_count_at_Some in Hn as ->; [done|].
      apply list_elem_of_lookup_2 in Hj. by apply Hitems in Hj as (_ & _ & ?).
Qed.

(** C2. With no category bucket at all the reshaping does not return
    the empty table with the [Date] column only, nor any table:
    [pd.concat] is given an empty list and raises [ValueError]. *)
Theorem TrendReshaper_raises_on_no_category :
  TrendReshaper to_datetime [] = Raise (ValueError "No objects to concatenate") ∧
  ∀ t, TrendReshaper to_datetime [] ≠ Return t.
Proof. by split. Qed.

(** C3, amended. On a well-formed response the rows of the table are
    in the order in which the timestamp labels first occur in the
    response, read category after category; the reshaping does not
    sort them.  On the specification's example that order is the
    order of the dates, and the table is the one the specification
    gives. *)
Theorem TrendReshaper_rows_in_order_of_first_occurrence buckets :
  well_formed to_datetime buckets →
  (∃ t, TrendReshaper to_datetime buckets = Return t ∧
        Some <$> Date t = to_datetime <$> unique (labels buckets)) ∧
  TrendReshaper iso_date checking_example
  = Return {| Date := [ {| year := 2024; month := 1; day := 1 |};
                        {| year := 2024; month := 2; day := 1 |} ];
              counts := [("Checking", [3; 5]); ("Credit Card", [0; 2])] |}.
Proof.
  intros Hwf. split; [|by vm_compute].
  destruct (TrendReshaper_well_formed buckets Hwf) as (dates & Hdates & Hrun).
  by eexists.
Qed.

End TrendProperties.

Lemma TrendReshaper_one_row_per_label_one_column_per_category_witness :
  ∃ t, Home.TrendReshaper Home.iso_date checking_example = Return t ∧
       reshaped Home.iso_date checking_example t.
Proof.
  destruct (TrendReshaper_one_row_per_label_one_column_per_category
              Home.iso_date checking_example) as (t & rows & Ht & Hshape & _).
  - by apply (bool_decide_unpack _).
  - by apply (bool_decide_unpack _).
  - repeat constructor; by vm_compute.
  - by exists t.
Defined.

Lemma TrendReshaper_rows_in_order_of_first_occurrence_witness :
  ∃ t, Home.TrendReshaper Home.iso_date late_start_example = Return t ∧
       Some <$> Home.Date t
       = Home.iso_date <$> Home.unique (labels late_start_example).
Proof.
  refine (proj1 (TrendReshaper_rows_in_order_of_first_occurrence
                   Home.iso_date late_start_example _)).
  by apply (bool_decide_unpack _).
Defined.

(** C1 does not hold as written: a category that holds a timestamp
    label twice gives two rows for that label. *)
Lemma repeated_label_gives_two_rows :
  ¬ reshapes_every_response Home.iso_date repeated_label_example.
Proof.
  intros Hclaim.
  destruct Hclaim as (t & Ht & rows & Hnd & Hrows & Hdate & _).
  { by apply (bool_decide_unpack _). }
  vm_compute in Ht. injection Ht as <-.
  destruct rows as [|r1 [|r2 [|r3 rows]]]; try discriminate Hdate.
  assert (∀ r, r ∈ [r1; r2] → r = "2024-01-01") as Hr.
  { intros r Hin%Hrows. vm_compute in Hin.
    by repeat (apply elem_of_cons in Hin as [->|Hin]; [done|]);
      apply elem_of_nil in Hin. }
  rewrite (Hr r1), (Hr r2) in Hnd
    by (repeat (first [by left | right])).
  apply NoDup_cons in Hnd as [Hin _]. apply Hin. by left.
Qed.

(** C3 does not hold as written: when the second category begins a
    month before the first, the earlier date comes in the second row. *)
Lemma late_start_rows_out_of_order : ¬ rows_are_sorted late_start_example.
Proof.
  intros Hsorted.
  specialize (Hsorted _ eq_refl 0%nat _ _ eq_refl eq_refl).
  unfold Home.date_le in Hsorted. simpl in Hsorted. lia.
Qed.


(** * Further properties of the client *)

Section MoreClientProperties.
Import CFPBApiClient.

Implicit Types (e : Endpoint) (get : Transport) (kwargs : Kwargs).

Lemma filter_keys (valid : list string) kwargs :
  (filter (λ kv : string * Value, kv.1 ∈ valid) kwargs).*1
  = filter (λ k, k ∈ valid) kwargs.*1.
Proof.
  induction kwargs as [|[k v] kwargs IH]; [done|].
  rewrite fmap_cons, !filter_cons. cbn [fst].
  destruct (decide (k ∈ valid)); by rewrite ?fmap_cons, IH.
Qed.

(** Every key of the input is either sent or reported, once for each
    time it is given, and no key is both sent and reported. *)
Theorem every_key_is_sent_or_reported e get kwargs :
  let c := call e get kwargs in
  (params c).*1 ++ reported c ≡ₚ kwargs.*1 ∧
  (length (params c) + length (reported c) = length kwargs)%nat ∧
  ∀ k, ¬ (k ∈ (params c).*1 ∧ k ∈ reported c).
Proof.
  cbn zeta. rewrite params_call, reported_call, filter_keys.
  assert (filter (λ k, k ∈ valid_params e) kwargs.*1
          ++ filter (λ k, k ∉ valid_params e) kwargs.*1 ≡ₚ kwargs.*1) as Hperm
    by apply filter_app_complement.
  split_and!.
  - done.
  - apply Permutation_length in Hperm.
    rewrite length_app in Hperm. rewrite <-filter_keys in Hperm.
    by rewrite !length_fmap in Hperm.
  - intros k [[Hin _]%list_elem_of_filter [Hout _]%list_elem_of_filter]. done.
Qed.

(** The parameters sent keep the order the caller gave them, and so do
    the reported keys; options with pairwise distinct names give
    parameters with pairwise distinct names. *)
Theorem sent_parameters_keep_their_order e get kwargs :
  let c := call e get kwargs in
  params c `sublist_of` kwargs ∧
  reported c `sublist_of` kwargs.*1 ∧
  (NoDup kwargs.*1 → NoDup (params c).*1 ∧ NoDup (reported c)).
Proof.
  cbn zeta. rewrite params_call, reported_call. split_and!.
  - apply sublist_filter.
  - apply sublist_filter.
  - intros Hnd. split.
    + eapply sublist_NoDup; [exact Hnd|]. apply fmap_sublist, sublist_filter.
    + by apply NoDup_filter.
Qed.

(** When every option is in the allow-list the options are sent as they
    are and one line is printed, the parameters; otherwise a second
    line is printed, with the rejected keys, and nothing else.  When no
    option is in the allow-list, nothing is sent and every key is
    reported.  [get_complaint] sends no parameter and prints nothing. *)
Theorem printed_lines e get kwargs (complaintId : string) :
  let c := call e get kwargs in
  let title := match e with Search => "Search Complaints" | Trend => "Get Trend" end in
  (Forall (λ k, k ∈ valid_params e) kwargs.*1 →
     params c = kwargs ∧ stdout c = [PrintParams title kwargs]) ∧
  (¬ Forall (λ k, k ∈ valid_params e) kwargs.*1 →
     stdout c = [PrintParams title (params c); PrintInvalid (reported c)] ∧
     reported c ≠ []) ∧
  (Forall (λ k, k ∉ valid_params e) kwargs.*1 →
     params c = [] ∧ reported c = kwargs.*1) ∧
  stdout (get_complaint get complaintId) = [] ∧
  params (get_complaint get complaintId) = [].
Proof.
  cbn zeta.
  assert (stdout (call e get kwargs)
          = PrintParams (match e with Search => "Search Complaints" | Trend => "Get Trend" end)
              (params (call e get kwargs))
            :: match reported (call e get kwargs) with
               | [] => []
               | _ :: _ => [PrintInvalid (reported (call e get kwargs))]
               end) as Hout.
  { rewrite reported_call.
    destruct e; cbn [call search_complaints get_trend stdout params valid_params];
      by destruct (filter _ kwargs.*1). }
  rewrite Hout, params_call, reported_call. split_and!; try done.
  - intros Hall.
    assert (filter (λ kv : string * Value, kv.1 ∈ valid_params e) kwargs = kwargs) as ->.
    { apply filter_all. intros kv Hkv. rewrite Forall_forall in Hall.
      apply Hall. by apply list_elem_of_fmap_2. }
    rewrite filter_none; [done|].
    intros k Hk Hout'. rewrite Forall_forall in Hall. by apply Hout', Hall.
  - intros Hnot.
    destruct (filter (λ k, k ∉ valid_params e) kwargs.*1) as [|k ks] eqn:Hrej; [|done].
    exfalso. apply Hnot, Forall_forall. intros k Hk.
    destruct (decide (k ∈ valid_params e)) as [|Hout']; [done|].
    assert (k ∈ filter (λ k, k ∉ valid_params e) kwargs.*1) as Hin
      by by apply list_elem_of_filter.
    rewrite Hrej in Hin. by apply elem_of_nil in Hin.
  - intros Hnone. split.
    + apply filter_none. intros kv Hkv Hin. rewrite Forall_forall in Hnone.
      eapply Hnone; [|exact Hin]. by apply list_elem_of_fmap_2.
    + apply filter_all. by apply Forall_forall.
Qed.

End MoreClientProperties.

(** * Properties of the calls of [fetch_data] *)

Section CallerProperties.
Import CFPBApiClient Caller.

Implicit Types (get : Transport) (kwargs : Kwargs) (c : Call).

Lemma keywords_clash explicit kwargs :
  Exists (λ k, k ∈ kwargs.*1) ("self" :: explicit.*1) →
  keywords explicit kwargs = Raised TypeError.
Proof. intros Hclash. unfold keywords. by rewrite bool_decide_eq_true_2. Qed.

Lemma keywords_apart explicit kwargs :
  Forall (λ k, k ∉ kwargs.*1) ("self" :: explicit.*1) →
  keywords explicit kwargs = Returned (explicit ++ kwargs).
Proof.
  intros Hapart. unfold keywords. rewrite bool_decide_eq_false_2; [done|].
  intros (k & Hk & Hin)%Exists_exists. rewrite Forall_forall in Hapart.
  by apply (Hapart k).
Qed.

Lemma keywords_Raised explicit kwargs e :
  keywords explicit kwargs = Raised e →
  e = TypeError ∧ Exists (λ k, k ∈ kwargs.*1) ("self" :: explicit.*1).
Proof. unfold keywords. case_bool_decide; [|done]. intros [= <-]. by split. Qed.

Lemma keywords_Returned explicit kwargs args :
  keywords explicit kwargs = Returned args →
  args = explicit ++ kwargs ∧ Forall (λ k, k ∉ kwargs.*1) ("self" :: explicit.*1).
Proof.
  unfold keywords. case_bool_decide as Hclash; [done|]. intros [= <-].
  split; [done|]. apply Forall_forall. intros k Hk Hin.
  apply Hclash, Exists_exists. by exists k.
Qed.

(** [fetch_data] cannot be given an option it sets itself, nor one
    called [self]: the search call is a [TypeError] exactly when the
    caller's options hold [self], [field] or [sort], the trend call
    exactly when they hold [self], [field], [trend_interval], [lens] or
    [sub_lens]; with none of them the client is called with the options
    of [fetch_data] first and the caller's after them.  The two calls
    are made one after the other: with [trend_interval], [lens] or
    [sub_lens] and none of [self], [field] and [sort], the search
    request is made, that option being reported as invalid, and it is
    the trend call that is the [TypeError]. *)
Theorem options_set_by_fetch_data_cannot_be_passed get kwargs :
  (search_call get kwargs = Raised TypeError ↔
     Exists (λ k, k ∈ kwargs.*1) ["self"; "field"; "sort"]) ∧
  (trend_call get kwargs = Raised TypeError ↔
     Exists (λ k, k ∈ kwargs.*1) ["self"; "field"; "trend_interval"; "lens"; "sub_lens"]) ∧
  (Forall (λ k, k ∉ kwargs.*1) ["self"; "field"; "sort"] →
     search_call get kwargs
     = Returned (search_complaints get
                   ([("field", VStr "all"); ("sort", VStr "created_date_desc")] ++ kwargs))) ∧
  (Forall (λ k, k ∉ kwargs.*1) ["self"; "field"; "trend_interval"; "lens"; "sub_lens"] →
     trend_call get kwargs
     = Returned (get_trend get
                   ([("field", VStr "all"); ("trend_interval", VStr "month");
                     ("lens", VStr "product"); ("sub_lens", VStr "sub_product")] ++ kwargs))) ∧
  (∀ k, k ∈ ["trend_interval"; "lens"; "sub_lens"] → k ∈ kwargs.*1 →
     Forall (λ k, k ∉ kwargs.*1) ["self"; "field"; "sort"] →
     ∃ c, search_call get kwargs = Returned c ∧
          response c = get base_url (params c) ∧
          k ∈ reported c ∧
          trend_call get kwargs = Raised TypeError).
Proof.
  split_and!.
  - unfold search_call. split.
    + destruct (keywords _ kwargs) as [args|e] eqn:Hargs; [done|].
      by apply keywords_Raised in Hargs as [_ ?].
    + intros Hclash. by rewrite keywords_clash.
  - unfold trend_call. split.
    + destruct (keywords _ kwargs) as [args|e] eqn:Hargs; [done|].
      by apply keywords_Raised in Hargs as [_ ?].
    + intros Hclash. by rewrite keywords_clash.
  - intros Hapart. unfold search_call. by rewrite keywords_apart.
  - intros Hapart. unfold trend_call. by rewrite keywords_apart.
  - intros k Hk Hin Hapart. eexists. split_and!.
    + unfold search_call. by rewrite keywords_apart.
    + done.
    + rewrite (reported_call Search get). apply list_elem_of_filter. split.
      * cbn [valid_params].
        repeat (apply elem_of_cons in Hk as [->|Hk]; [by apply (bool_decide_unpack _)|]).
        by apply elem_of_nil in Hk.
      * rewrite fmap_app. apply elem_of_app. by right.
    + unfold trend_call. rewrite keywords_clash; [done|].
      apply Exists_exists. exists k. split; [|done].
      cbn [fmap list_fmap fst]. do 2 apply elem_of_cons, or_intror.
      exact Hk.
Qed.

Lemma search_call_Returned get kwargs c :
  search_call get kwargs = Returned c →
  c = search_complaints get
        ([("field", VStr "all"); ("sort", VStr "created_date_desc")] ++ kwargs).
Proof.
  unfold search_call.
  destruct (keywords _ kwargs) as [args|e] eqn:Hargs; [|done].
  apply keywords_Returned in Hargs as [-> _]. cbn [mbind Attempt_bind]. congruence.
Qed.

Lemma trend_call_Returned get kwargs c :
  trend_call get kwargs = Returned c →
  c = get_trend get
        ([("field", VStr "all"); ("trend_interval", VStr "month");
          ("lens", VStr "product"); ("sub_lens", VStr "sub_product")] ++ kwargs).
Proof.
  unfold trend_call.
  destruct (keywords _ kwargs) as [args|e] eqn:Hargs; [|done].
  apply keywords_Returned in Hargs as [-> _]. cbn [mbind Attempt_bind]. congruence.
Qed.

Lemma result_not_200 get kwargs c :
  c = search_complaints get kwargs ∨ c = get_trend get kwargs →
  status_code (response c) ≠ 200 →
  result c = Return (error_payload (status_code (response c))).
Proof.
  intros [-> | ->] Hne; cbn [result response search_complaints get_trend] in *;
    by apply Z.eqb_neq in Hne as ->.
Qed.

(** [fetch_data] does not look for the error payload: when the service
    answers the search with a status other than 200, building the
    records raises [KeyError('hits')]; when it answers the trend
    request so, reading the buckets raises [KeyError('aggregations')]. *)
Theorem error_payload_is_not_checked get kwargs c :
  (search_call get kwargs = Returned c → status_code (response c) ≠ 200 →
     search_sources get kwargs = Raised (Of (KeyError "hits"))) ∧
  (trend_call get kwargs = Returned c → status_code (response c) ≠ 200 →
     trend_items get kwargs = Raised (Of (KeyError "aggregations"))).
Proof.
  split.
  - intros Hc Hne. unfold search_sources. rewrite Hc. cbn [mbind Attempt_bind].
    apply search_call_Returned in Hc.
    by rewrite (result_not_200 get _ c (or_introl Hc) Hne).
  - intros Hc Hne. unfold trend_items. rewrite Hc. cbn [mbind Attempt_bind].
    apply trend_call_Returned in Hc.
    by rewrite (result_not_200 get _ c (or_intror Hc) Hne).
Qed.

Lemma getitem_holds container key value :
  holds container key value → getitem container key = Returned value.
Proof. intros (d & -> & Hd). unfold getitem. by rewrite Hd. Qed.

Lemma for_each_source hits sources :
  Forall2 (λ hit source, holds hit "_source" source) hits sources →
  for_each (λ hit, getitem hit "_source") hits = Returned sources.
Proof.
  induction 1 as [|hit source hits sources Hhit _ IH]; [done|].
  cbn [for_each]. by rewrite (getitem_holds _ _ _ Hhit), IH.
Qed.

(** On an answer 200 whose body holds, under [hits] and [hits] again,
    an array of objects with a [_source] each, the records are those
    [_source] values, one per hit and in the order of the hits; a hit
    without [_source] is a [KeyError('_source')]. *)
Theorem records_are_the_sources_of_the_hits get kwargs c body inner hits sources :
  search_call get kwargs = Returned c →
  status_code (response c) = 200 →
  json (response c) = Return body →
  holds body "hits" inner →
  holds inner "hits" (JList hits) →
  (Forall2 (λ hit source, holds hit "_source" source) hits sources →
     search_sources get kwargs = Returned sources) ∧
  (∀ before d after,
     hits = before ++ JDict d :: after →
     Forall (λ hit, ∃ source, holds hit "_source" source) before →
     "_source" ∉ d.*1 →
     search_sources get kwargs = Raised (Of (KeyError "_source"))).
Proof.
  intros Hc H200 Hbody Hinner Hhits.
  assert (search_sources get kwargs = for_each (λ hit, getitem hit "_source") hits) as ->.
  { unfold search_sources. rewrite Hc. cbn [mbind Attempt_bind].
    apply search_call_Returned in Hc. subst c.
    cbn [result response search_complaints] in *.
    apply Z.eqb_eq in H200 as ->. rewrite Hbody. cbn [propagate mbind Attempt_bind].
    rewrite (getitem_holds _ _ _ Hinner). cbn [mbind Attempt_bind].
    by rewrite (getitem_holds _ _ _ Hhits). }
  split; [apply for_each_source|].
  intros before d after -> Hbefore Hmissing. clear Hhits.
  induction Hbefore as [|hit before (source & Hhit) _ IH].
  - cbn [app for_each getitem].
    by rewrite (proj1 (not_elem_of_list_to_map d "_source") Hmissing).
  - cbn [app for_each]. rewrite (getitem_holds _ _ _ Hhit). cbn [mbind Attempt_bind].
    by rewrite IH.
Qed.


(** On an answer 200 whose body holds an array under [aggregations],
    [product], [product] and [buckets], the loop goes through the
    elements of that array, in their order; an empty array gives the
    loop nothing to go through. *)
Theorem loop_goes_through_the_buckets get kwargs c body aggregations outer inner items :
  trend_call get kwargs = Returned c →
  status_code (response c) = 200 →
  json (response c) = Return body →
  holds body "aggregations" aggregations →
  holds aggregations "product" outer →
  holds outer "product" inner →
  holds inner "buckets" (JList items) →
  trend_items get kwargs = Returned items.
Proof.
  intros Hc H200 Hbody Ha Ho Hi Hb.
  unfold trend_items. rewrite Hc. cbn [mbind Attempt_bind].
  apply trend_call_Returned in Hc. subst c.
  cbn [result response get_trend] in *.
  apply Z.eqb_eq in H200 as ->. rewrite Hbody. cbn [propagate mbind Attempt_bind].
  rewrite (getitem_holds _ _ _ Ha). cbn [mbind Attempt_bind].
  rewrite (getitem_holds _ _ _ Ho). cbn [mbind Attempt_bind].
  rewrite (getitem_holds _ _ _ Hi). cbn [mbind Attempt_bind].
  by rewrite (getitem_holds _ _ _ Hb).
Qed.

(** Both requests of [fetch_data] carry the caller's options: after its
    own, each request has the caller's options its endpoint allows, in
    the caller's order.  An option both endpoints allow narrows both
    requests; one that only the search allows, as [size], is sent with
    the search and reported as invalid by the trend call. *)
Theorem both_requests_carry_the_callers_options get kwargs cs ct :
  search_call get kwargs = Returned cs →
  trend_call get kwargs = Returned ct →
  params cs = [("field", VStr "all"); ("sort", VStr "created_date_desc")]
              ++ (filter (λ kv, kv.1 ∈ search_valid_params) kwargs) ∧
  params ct = [("field", VStr "all"); ("trend_interval", VStr "month");
               ("lens", VStr "product"); ("sub_lens", VStr "sub_product")]
              ++ (filter (λ kv, kv.1 ∈ trend_valid_params) kwargs) ∧
  reported cs = filter (λ k, k ∉ search_valid_params) kwargs.*1 ∧
  reported ct = filter (λ k, k ∉ trend_valid_params) kwargs.*1 ∧
  (∀ k v, (k, v) ∈ kwargs → k ∈ search_valid_params → k ∈ trend_valid_params →
     (k, v) ∈ params cs ∧ (k, v) ∈ params ct) ∧
  (∀ k v, (k, v) ∈ kwargs → k ∈ search_valid_params → k ∉ trend_valid_params →
     (k, v) ∈ params cs ∧ (k ∉ (params ct).*1) ∧ k ∈ reported ct) ∧
  "size" ∈ search_valid_params ∧ "size" ∉ trend_valid_params.
Proof.
  intros ->%search_call_Returned Hct.
  pose proof Hct as ->%trend_call_Returned.
  assert (Forall (λ k, k ∉ kwargs.*1) ["field"; "trend_interval"; "lens"; "sub_lens"])
    as Hapart.
  { unfold trend_call in Hct.
    destruct (keywords _ kwargs) as [args|e] eqn:Hargs; [|done].
    apply keywords_Returned in Hargs as [_ Hargs].
    by apply Forall_cons_1 in Hargs as [_ ?]. }
  pose proof (params_call Search get) as Hps. pose proof (params_call Trend get) as Hpt.
  pose proof (reported_call Search get) as Hrs. pose proof (reported_call Trend get) as Hrt.
  cbn [call valid_params] in Hps, Hpt, Hrs, Hrt.
  rewrite Hps, Hpt, Hrs, Hrt, !fmap_app, !filter_app.
  assert (∀ k v, (k, v) ∈ kwargs → k ∉ trend_valid_params →
            k ∉ ([("field", VStr "all"); ("trend_interval", VStr "month");
                  ("lens", VStr "product"); ("sub_lens", VStr "sub_product")]
                 ++ (filter (λ kv, kv.1 ∈ trend_valid_params) kwargs)).*1) as Hnot.
  { intros k v Hkv Hout. rewrite fmap_app, elem_of_app, filter_keys.
    intros [Hfixed|[Hin _]%list_elem_of_filter]; [|done].
    rewrite Forall_forall in Hapart. apply (Hapart k Hfixed).
    by apply (list_elem_of_fmap_2 fst _ (k, v)). }
  split_and!; try done.
  - intros k v Hkv Hs Ht. split; apply elem_of_app; right;
      by apply list_elem_of_filter.
  - intros k v Hkv Hs Ht. split_and!.
    + apply elem_of_app; right. by apply list_elem_of_filter.
    + by apply (Hnot k v).
    + apply elem_of_app; right. apply list_elem_of_filter. split; [done|].
      by apply (list_elem_of_fmap_2 fst _ (k, v)).
  - by apply (bool_decide_unpack _).
  - by apply (bool_decide_unpack _).
Qed.

End CallerProperties.

Lemma records_are_the_sources_of_the_hits_witness :
  let record := JDict [("company", JStr "ACME"); ("complaint_id", JStr "1")] in
  let body := JDict [("hits", JDict [("total", JInt 1);
                                     ("hits", JList [JDict [("_id", JStr "1");
                                                            ("_source", record)]])])] in
  let get := λ _ _, {| CFPBApiClient.status_code := 200;
                        CFPBApiClient.json := Return body |} in
  Caller.search_sources get [("size", CFPBApiClient.VInt 5)] = Caller.Returned [record].
Proof.
  intros record body get.
  refine (proj1 (records_are_the_sources_of_the_hits get [("size", CFPBApiClient.VInt 5)]
                   (CFPBApiClient.search_complaints get
                      [("field", CFPBApiClient.VStr "all");
                       ("sort", CFPBApiClient.VStr "created_date_desc");
                       ("size", CFPBApiClient.VInt 5)])
                   body
                   (JDict [("total", JInt 1);
                           ("hits", JList [JDict [("_id", JStr "1"); ("_source", record)]])])
                   [JDict [("_id", JStr "1"); ("_source", record)]]
                   [record] eq_refl eq_refl eq_refl _ _) _).
  - eexists. split; [reflexivity|]. by vm_compute.
  - eexists. split; [reflexivity|]. by vm_compute.
  - constructor; [|constructor]. eexists. split; [reflexivity|]. by vm_compute.
Defined.

Lemma both_requests_carry_the_callers_options_witness :
  let get := λ _ _, {| CFPBApiClient.status_code := 200;
                        CFPBApiClient.json := Return JNull |} in
  let kwargs := [("company", CFPBApiClient.VList ["ACME"]); ("size", CFPBApiClient.VInt 5)] in
  CFPBApiClient.reported
    (CFPBApiClient.get_trend get
       ([("field", CFPBApiClient.VStr "all"); ("trend_interval", CFPBApiClient.VStr "month");
         ("lens", CFPBApiClient.VStr "product"); ("sub_lens", CFPBApiClient.VStr "sub_product")]
        ++ kwargs))
  = ["size"].
Proof.
  intros get kwargs.
  destruct (both_requests_carry_the_callers_options get kwargs _ _ eq_refl eq_refl)
    as (_ & _ & _ & -> & _).
  by vm_compute.
Defined.

Lemma loop_goes_through_the_buckets_witness :
  let inner := JDict [("doc_count", JInt 0); ("buckets", JList [])] in
  let outer := JDict [("doc_count", JInt 0); ("product", inner)] in
  let aggregations := JDict [("product", outer)] in
  let body := JDict [("aggregations", aggregations)] in
  let get := λ _ _, {| CFPBApiClient.status_code := 200;
                        CFPBApiClient.json := Return body |} in
  Caller.trend_items get [("has_narrative", CFPBApiClient.VStr "true")] = Caller.Returned [].
Proof.
  intros inner outer aggregations body get.
  refine (loop_goes_through_the_buckets get [("has_narrative", CFPBApiClient.VStr "true")]
            (CFPBApiClient.get_trend get
               [("field", CFPBApiClient.VStr "all");
                ("trend_interval", CFPBApiClient.VStr "month");
                ("lens", CFPBApiClient.VStr "product");
                ("sub_lens", CFPBApiClient.VStr "sub_product");
                ("has_narrative", CFPBApiClient.VStr "true")])
            body aggregations outer inner [] eq_refl eq_refl eq_refl _ _ _ _);
    (eexists; split; [reflexivity|by vm_compute]).
Defined.

Lemma error_payload_is_not_checked_witness :
  let get := λ _ _, {| CFPBApiClient.status_code := 503;
                        CFPBApiClient.json := Raise JSONDecodeError |} in
  Caller.search_sources get [("size", CFPBApiClient.VInt 5)]
  = Caller.Raised (Caller.Of (KeyError "hits")).
Proof.
  intros get.
  refine (proj1 (error_payload_is_not_checked get [("size", CFPBApiClient.VInt 5)]
                   (CFPBApiClient.search_complaints get
                      [("field", CFPBApiClient.VStr "all");
                       ("sort", CFPBApiClient.VStr "created_date_desc");
                       ("size", CFPBApiClient.VInt 5)])) eq_refl _).
  intros Heq. vm_compute in Heq. discriminate Heq.
Defined.

(** * Further properties of the redactor and of the page *)

Section MoreRedactorProperties.
Import Home.
Context `{UnicodeDB}.

Implicit Types (c : Char) (s out : Text) (w : bool).

Lemma scan_without_X w s : X ∉ s → scan (Outside w) s = s.
Proof.
  revert w. induction s as [|c r IH]; intros w Hs; [done|].
  apply not_elem_of_cons in Hs as [Hc Hr]. rewrite scan_not_X.
  - by rewrite IH.
  - destruct (is_X c) eqn:HX; [|done]. by apply is_X_spec in HX.
Qed.

(** A narrative without the letter [X] is not changed by the
    substitution: the redactor only cuts it to its first 500
    characters, and returns it as it is when it has no more. *)
Theorem narrative_without_mask_is_only_truncated s :
  X ∉ s →
  re_sub pattern replacement s = s ∧
  NarrativeRedactor s = take 500 s ∧
  ((length s ≤ 500)%nat → NarrativeRedactor s = s).
Proof.
  intros Hs. rewrite NarrativeRedactor_scan, re_sub_scan, scan_without_X by done.
  split_and!; [done..|]. intros Hlen. by apply take_ge.
Qed.

Lemma scan_no_bare_X s : ∀ m w,
  match m with Outside w' => w = w' | Inside => True end →
  no_bare_X w (scan m s).
Proof.
  induction s as [|c r IH]; intros m w Hm; [done|].
  assert (is_X c = false → no_bare_X w (c :: scan (Outside (is_word c)) r)) as Hcopy.
  { intros HX. split; [|by apply IH]. intros ->. by rewrite is_X_X in HX. }
  destruct m as [w'|]; cbn [scan].
  - subst w'. destruct (is_X c && negb w) eqn:Hmatch.
    + change (no_bare_X w (91 :: 82 :: 93 :: scan Inside r))%N.
      repeat (split; [done|]). by apply IH.
    + apply andb_false_iff in Hmatch as [HX|Hw]; [by apply Hcopy|].
      apply negb_false_iff in Hw as ->. split; [done|]. by apply IH.
  - destruct (is_X c) eqn:HX; [by apply IH|].
    destruct (is_sep c && starts_with_X r); [by apply IH|]. by apply Hcopy.
Qed.

Lemma no_bare_X_take n w out : no_bare_X w out → no_bare_X w (take n out).
Proof.
  revert n w. induction out as [|c out IH]; intros [|n] w; try done.
  intros [Hc Hout]. split; [done|]. by apply IH.
Qed.

Lemma no_bare_X_lookup w out i :
  no_bare_X w out → out !! i = Some X →
  match i with
  | O => w = true
  | S j => ∃ c, out !! j = Some c ∧ is_word c = true
  end.
Proof.
  revert w i. induction out as [|c out IH]; intros w i Hout Hi; [done|].
  destruct Hout as [Hc Hout]. destruct i as [|i].
  - injection Hi as ->. by apply Hc.
  - specialize (IH _ i Hout Hi). destruct i as [|i]; [by exists c|].
    destruct IH as (d & Hd & Hword). by exists d.
Qed.

(** No [X] of the redactor's output begins a word: every [X] left in
    it stands directly after a letter, a digit or an underscore (a word
    character), in particular never first. *)
Theorem no_mask_letter_is_left_at_a_word_start s i :
  NarrativeRedactor s !! i = Some X →
  ∃ j c, i = S j ∧ NarrativeRedactor s !! j = Some c ∧ is_word c = true.
Proof.
  rewrite NarrativeRedactor_scan. intros Hi.
  pose proof (no_bare_X_take 500 false _ (scan_no_bare_X s (Outside false) false eq_refl))
    as Hout.
  pose proof (no_bare_X_lookup _ _ _ Hout Hi) as Hprev.
  destruct i as [|j]; [done|]. destruct Hprev as (c & Hc & Hword). by exists j, c.
Qed.

End MoreRedactorProperties.

Lemma narrative_without_mask_is_only_truncated_witness :
  @Home.NarrativeRedactor Home.latin1 (Home.text "Paid $34.00, no reply")
  = Home.text "Paid $34.00, no reply".
Proof.
  refine (proj2 (proj2 (@narrative_without_mask_is_only_truncated Home.latin1
                          (Home.text "Paid $34.00, no reply") _)) _).
  - by apply (bool_decide_unpack _).
  - vm_compute. lia.
Defined.

Lemma no_mask_letter_is_left_at_a_word_start_witness :
  ∃ j c, 2%nat = S j ∧
         @Home.NarrativeRedactor Home.latin1 (Home.text "4XX") !! j = Some c ∧
         @Home.is_word Home.latin1 c = true.
Proof.
  apply (@no_mask_letter_is_left_at_a_word_start Home.latin1 (Home.text "4XX") 2).
  by vm_compute.
Defined.

Section PageProperties.
Import Caller.

Implicit Types (summary : list N).

(** In the text handed to [st.info] every dollar sign stands directly
    after a backslash; the text has one character more for every
    dollar sign of the summary, and a summary without any is handed
    over as it is. *)
Theorem every_dollar_sign_is_escaped summary :
  (∀ i, escape_dollars summary !! i = Some 36%N →
        ∃ j, i = S j ∧ escape_dollars summary !! j = Some 92%N) ∧
  length (escape_dollars summary)
  = (length summary + length (filter (λ c, c = 36%N) summary))%nat ∧
  (36%N ∉ summary → escape_dollars summary = summary).
Proof.
  unfold escape_dollars. split_and!.
  - induction summary as [|c summary IH]; intros i Hi; [done|].
    rewrite bind_cons in Hi |- *. case_bool_decide as Hc.
    + subst c. destruct i as [|[|i]]; [done|by exists 0%nat|].
      destruct (IH i Hi) as (j & -> & Hj). by exists (S (S j)).
    + destruct i as [|i]; [by injection Hi|].
      destruct (IH i Hi) as (j & -> & Hj). by exists (S j).
  - induction summary as [|c summary IH]; [done|].
    rewrite bind_cons, length_app, IH, filter_cons.
    case_bool_decide as Hc.
    + rewrite decide_True by done. simpl. lia.
    + rewrite decide_False by done. simpl. lia.
  - induction summary as [|c summary IH]; intros Hs; [done|].
    apply not_elem_of_cons in Hs as [Hc Hs]. rewrite bind_cons.
    rewrite bool_decide_eq_false_2 by done. by rewrite IH.
Qed.

End PageProperties.

(** * Further properties of the trend table *)

Section MoreTrendProperties.
Import Home.
Context {Timestamp : Type} (to_datetime : string → option Timestamp).

Implicit Types (item : CategoryBucket) (buckets : list CategoryBucket)
  (rows : list string) (label : string) (t : TrendTable Timestamp).

Lemma collect_Return buckets data :
  collect buckets = Return data →
  data = frame_of <$> buckets ∧
  Forall (λ item, key item ≠ "Date" ∧ trend_period item ≠ []) buckets.
Proof.
  revert data. induction buckets as [|item buckets IH]; intros data Hdata.
  - injection Hdata as <-. by split.
  - cbn [collect] in Hdata. unfold item_frame in Hdata.
    destruct (trend_period item) as [|period periods] eqn:Hperiods; [done|].
    case_bool_decide as Hkey; [done|]. cbn [mbind Outcome_bind] in Hdata.
    destruct (collect buckets) as [data'|] eqn:Hrest; [|done].
    destruct (IH data' eq_refl) as [-> Hall]. injection Hdata as <-. split.
    + rewrite fmap_cons. unfold frame_of at 2. by rewrite Hperiods.
    + constructor; [|done]. by rewrite Hperiods.
Qed.

Lemma to_datetime_column_Return rows dates :
  to_datetime_column to_datetime rows = Return dates →
  Some <$> dates = to_datetime <$> rows.
Proof.
  revert dates. induction rows as [|label rows IH]; intros dates Hdates.
  - by injection Hdates as <-.
  - cbn [to_datetime_column] in Hdates.
    destruct (to_datetime label) as [ts|] eqn:Hts; [|done].
    destruct (to_datetime_column to_datetime rows) as [dates'|]; [|done].
    injection Hdates as <-. by rewrite !fmap_cons, Hts, (IH dates' eq_refl).
Qed.

Lemma fillna_keep buckets :
  fillna 0 ((frame_of <$> buckets) ≫= keep)
  = (λ item, (key item, (trend_period item).*2)) <$> buckets.
Proof.
  rewrite frames_keep. unfold fillna. rewrite <-list_fmap_compose.
  apply list_fmap_ext. intros _ item _. cbn. f_equal.
  rewrite <-list_fmap_compose. by rewrite list_fmap_id.
Qed.

(** What a returned table is made of: either all the categories have
    the same periods and the table is their counts side by side, or no
    category has a label twice and the table is the outer join. *)
Lemma TrendReshaper_Return buckets t :
  TrendReshaper to_datetime buckets = Return t →
  ∃ rows,
    buckets ≠ [] ∧
    Forall (λ item, key item ≠ "Date" ∧ trend_period item ≠ []) buckets ∧
    Some <$> Date t = to_datetime <$> rows ∧
    ((same_index rows buckets ∧
      counts t = (λ item, (key item, (trend_period item).*2)) <$> buckets)
     ∨ (rows = unique (labels buckets) ∧
        Forall (λ item, NoDup (trend_period item).*1) buckets ∧
        counts t = count_column rows <$> buckets)).
Proof.
  unfold TrendReshaper. intros Ht.
  destruct (collect buckets) as [data|] eqn:Hdata; [|done].
  apply collect_Return in Hdata as [-> Hitems]. cbn [mbind Outcome_bind] in Ht.
  destruct buckets as [|first others]; [done|].
  rewrite fmap_cons in Ht. unfold concat_axis1 in Ht. rewrite <-fmap_cons in Ht.
  case_bool_decide as Hsame.
  - cbn [mbind Outcome_bind] in Ht. unfold reset_index in Ht.
    case_bool_decide; [done|]. cbn [mbind Outcome_bind index columns] in Ht.
    destruct (to_datetime_column _ _) as [dates|] eqn:Hdates; [|done].
    injection Ht as <-.
    exists (trend_period first).*1. split_and!; [done|done| |left; split].
    + exact (to_datetime_column_Return _ _ Hdates).
    + constructor; [done|]. by rewrite Forall_fmap in Hsame.
    + exact (fillna_keep (first :: others)).
  - case_bool_decide as Hnd; [|done].
    rewrite frames_index, frames_reindex in Ht.
    cbn [mbind Outcome_bind] in Ht. unfold reset_index in Ht.
    case_bool_decide; [done|]. cbn [mbind Outcome_bind index columns] in Ht.
    destruct (to_datetime_column _ _) as [dates|] eqn:Hdates; [|done].
    injection Ht as <-.
    exists (unique (labels (first :: others))).
    split_and!; [done|done| |right; split_and!].
    + exact (to_datetime_column_Return _ _ Hdates).
    + done.
    + by rewrite Forall_fmap in Hnd.
    + exact (fillna_joined _ (first :: others)).
Qed.

Lemma same_index_labels rows buckets label :
  same_index rows buckets → label ∈ labels buckets → label ∈ rows.
Proof.
  unfold same_index, labels. rewrite Forall_forall.
  intros Hsame (item & Hl & Hin)%list_elem_of_bind.
  by rewrite <-(Hsame item Hin).
Qed.

(** The reshaping when all the categories have the same periods. *)
Lemma TrendReshaper_same_index rows buckets :
  buckets ≠ [] →
  Forall (λ item, key item ≠ "Date" ∧ trend_period item ≠ []) buckets →
  same_index rows buckets →
  Forall (λ label, is_Some (to_datetime label)) rows →
  ∃ dates,
    Some <$> dates = to_datetime <$> rows ∧
    TrendReshaper to_datetime buckets
    = Return {| Date := dates;
                counts := (λ item, (key item, (trend_period item).*2)) <$> buckets |}.
Proof.
  intros Hne Hitems Hsame Hparse.
  destruct (to_datetime_column_parses to_datetime rows Hparse) as (dates & Hdates & Heq).
  exists dates. split; [done|]. unfold TrendReshaper.
  rewrite collect_frames by done. cbn [mbind Outcome_bind].
  destruct buckets as [|first others]; [done|].
  pose proof Hsame as Hsame'. unfold same_index in Hsame'.
  apply Forall_cons_1 in Hsame' as [Hfirst Hothers].
  rewrite fmap_cons. unfold concat_axis1. rewrite <-fmap_cons.
  rewrite bool_decide_eq_true_2.
  - cbn [mbind Outcome_bind]. unfold reset_index. cbn [columns index].
    rewrite bool_decide_eq_false_2.
    + cbn [mbind Outcome_bind columns index frame_of]. rewrite Hfirst, Hdates.
      cbn [mbind Outcome_bind]. by rewrite fillna_keep.
    + rewrite frames_keep, <-list_fmap_compose.
      intros (item & Hkey & Hin)%list_elem_of_fmap.
      rewrite Forall_forall in Hitems. apply Hitems in Hin as (Hk & _). by apply Hk.
  - rewrite Forall_fmap. eapply Forall_impl; [exact Hothers|].
    intros item Hitem. cbn. by rewrite Hitem, Hfirst.
Qed.


Lemma parsed_rows rows (dates : list Timestamp) :
  Some <$> dates = to_datetime <$> rows →
  Forall (λ label, is_Some (to_datetime label)) rows ∧ length dates = length rows.
Proof.
  revert dates. induction rows as [|label rows IH]; intros [|ts dates] Heq;
    try done.
  rewrite !fmap_cons in Heq. injection Heq as Hts Heq.
  destruct (IH dates Heq) as [Hall Hlen]. split; [|simpl; by rewrite Hlen].
  constructor; [by rewrite <-Hts|done].
Qed.

Lemma unique_labels_same_index rows buckets :
  buckets ≠ [] → same_index rows buckets → NoDup rows →
  unique (labels buckets) = rows.
Proof.
  intros Hne Hsame Hnd. destruct buckets as [|first others]; [done|].
  pose proof Hsame as Hsame'. apply Forall_cons_1 in Hsame' as [Hfirst Hothers].
  unfold labels. rewrite bind_cons, unique_app, Hfirst, unique_NoDup by done.
  rewrite filter_none; [by rewrite app_nil_r|].
  intros label Hl Hout. rewrite elem_of_unique in Hl. apply Hout.
  by apply (same_index_labels rows others).
Qed.

(** When no table is returned: on a response where no category is
    called [Date], a table is returned only if there is at least one
    category, every category has at least one period, and either all
    the categories have the same periods in the same order or no
    category has a timestamp label twice.  When every category has a
    period and neither of the two holds, it is [pd.concat] that raises,
    [InvalidIndexError]. *)
Theorem TrendReshaper_returns_only_when buckets :
  Forall (λ item, key item ≠ "Date") buckets →
  ((∃ t, TrendReshaper to_datetime buckets = Return t) →
     buckets ≠ [] ∧
     Forall (λ item, trend_period item ≠ []) buckets ∧
     ((∃ rows, same_index rows buckets) ∨
      Forall (λ item, NoDup (trend_period item).*1) buckets)) ∧
  (Forall (λ item, trend_period item ≠ []) buckets →
   ¬ (∃ rows, same_index rows buckets) →
   ¬ Forall (λ item, NoDup (trend_period item).*1) buckets →
   TrendReshaper to_datetime buckets = Raise InvalidIndexError).
Proof.
  intros Hkeys. split.
  - intros (t & (rows & Hne & Hitems & Hdates & Hcase)%TrendReshaper_Return).
    split_and!; [done| |].
    + eapply Forall_impl; [exact Hitems|]. by intros item [_ ?].
    + destruct Hcase as [[Hsame _]|(_ & Hnd & _)]; [left; by exists rows|by right].
  - intros Hperiods Hdiffer Hdup. unfold TrendReshaper.
    rewrite collect_frames.
    2: { rewrite Forall_forall in Hkeys, Hperiods |- *. intros item Hin.
         split; [by apply Hkeys|by apply Hperiods]. }
    cbn [mbind Outcome_bind].
    destruct buckets as [|first others].
    { destruct Hdiffer. exists []. constructor. }
    rewrite fmap_cons. unfold concat_axis1. rewrite <-fmap_cons.
    rewrite bool_decide_eq_false_2.
    + rewrite bool_decide_eq_false_2; [done|]. by rewrite Forall_fmap.
    + rewrite Forall_fmap. intros Hsame. apply Hdiffer.
      exists (trend_period first).*1. by constructor.
Qed.

(** A table that is returned has the categories' labels as the names of
    its count columns, one column per category bucket in the order of
    the response, also when two buckets have the same label, and every
    column has as many cells as there are rows. *)
Theorem returned_table_is_rectangular buckets t :
  TrendReshaper to_datetime buckets = Return t →
  (counts t).*1 = key <$> buckets ∧
  length (counts t) = length buckets ∧
  Forall (λ col, length col.2 = length (Date t)) (counts t).
Proof.
  intros (rows & Hne & Hitems & Hdates & Hcase)%TrendReshaper_Return.
  apply parsed_rows in Hdates as [_ Hlen]. rewrite Hlen.
  destruct Hcase as [[Hsame ->]|(-> & _ & ->)].
  - split_and!.
    + by rewrite <-list_fmap_compose.
    + by rewrite length_fmap.
    + rewrite Forall_fmap. unfold same_index in Hsame.
      eapply Forall_impl; [exact Hsame|]. intros item <-. cbn.
      by rewrite !length_fmap.
  - split_and!.
    + by rewrite <-list_fmap_compose.
    + by rewrite length_fmap.
    + rewrite Forall_fmap. apply Forall_forall. intros item _. cbn.
      by rewrite length_fmap.
Qed.

(** The reshaping makes up no count: a cell of a category's column is
    one of the counts of that category in the response, or such a count
    converted to float64, or 0, and it is a count or 0 when the counts
    of the category are not above 2^53 in magnitude; so counts that are
    not negative give cells that are not negative.  The conversion
    shows above 2^53: in [large_count_example] the count
    9007199254740993 comes out as 9007199254740992. *)
Theorem cells_are_counts_of_the_category_or_zero buckets t (j : nat) item
    (col : string * list Z) :
  TrendReshaper to_datetime buckets = Return t →
  buckets !! j = Some item →
  counts t !! j = Some col →
  col.1 = key item ∧
  Forall (λ v : Z, v = 0 ∨ v ∈ (trend_period item).*2
                   ∨ v ∈ float64_of_int <$> (trend_period item).*2) col.2 ∧
  (counts_fit_float64 item →
     Forall (λ v : Z, v = 0 ∨ v ∈ (trend_period item).*2) col.2) ∧
  (Forall (λ n : Z, (0 ≤ n)%Z) (trend_period item).*2 → Forall (λ v : Z, (0 ≤ v)%Z) col.2) ∧
  TrendReshaper iso_date large_count_example
  = Return {| Date := [ {| year := 2024; month := 1; day := 1 |};
                        {| year := 2024; month := 2; day := 1 |} ];
              counts := [("Checking", [3; 5]);
                         ("Credit Card", [0; 9007199254740992])] |}.
Proof.
  intros (rows & Hne & Hitems & Hdates & Hcase)%TrendReshaper_Return Hj Hcol.
  assert (col.1 = key item ∧
          Forall (λ v : Z, v = 0 ∨ ∃ n, n ∈ (trend_period item).*2 ∧
                                        (v = n ∨ v = float64_of_int n ∧ ¬ fits_float64 n))
                 col.2)
    as [Hname Hcells].
  { destruct Hcase as [[Hsame Hcounts]|(-> & Hnd & Hcounts)];
      rewrite Hcounts, list_lookup_fmap, Hj in Hcol; injection Hcol as <-.
    - split; [done|]. apply Forall_forall. intros v Hv. right. exists v. auto.
    - split; [done|]. cbn. rewrite Forall_fmap. apply Forall_forall.
      intros label _. cbn.
      destruct (doc_count_at item label) as [n|] eqn:Hn; [right|by left].
      exists n. split; [by apply (doc_count_at_count item label)|]. cbn.
      destruct (decide (fits_float64 n)) as [Hfit|Hfit].
      + left. apply stored_as_it_is. by right.
      + destruct (stored_cases (unique (labels buckets)) item n) as [->| ->]; auto. }
  rewrite Forall_forall in Hcells. split_and!; [done| | | |by vm_compute].
  - apply Forall_forall. intros v Hv.
    destruct (Hcells v Hv) as [->|(n & Hn & [->|[-> _]])]; [by left|right; by left|].
    right; right. by apply list_elem_of_fmap_2.
  - intros Hfit. unfold counts_fit_float64 in Hfit. rewrite Forall_forall in Hfit.
    apply Forall_forall. intros v Hv.
    destruct (Hcells v Hv) as [->|(n & Hn & [->|[_ Hbig]])]; [by left|by right|].
    destruct Hbig. by apply Hfit.
  - intros Hpos. rewrite Forall_forall in Hpos |- *. intros v Hv.
    destruct (Hcells v Hv) as [->|(n & Hn & [->|[-> _]])]; [done|by apply Hpos|].
    by apply float64_of_int_nonneg, Hpos.
Qed.

Lemma total_cons (v : Z) (cells : list Z) : total (v :: cells) = v + total cells.
Proof. done. Qed.

Lemma total_zero {A} (l : list A) : total ((λ _, 0) <$> l) = 0.
Proof. induction l as [|x l IH]; [done|]. by rewrite fmap_cons, total_cons, IH. Qed.

Lemma total_add {A} (f g : A → Z) (l : list A) :
  total ((λ x, f x + g x) <$> l) = total (f <$> l) + total (g <$> l).
Proof.
  induction l as [|x l IH]; [done|]. rewrite !fmap_cons, !total_cons, IH. lia.
Qed.

Lemma total_once rows label (v : Z) :
  NoDup rows → label ∈ rows →
  total ((λ l, if decide (l = label) then v else 0) <$> rows) = v.
Proof.
  induction 1 as [|l rows Hl Hnd IH]; [by intros ?%elem_of_nil|].
  rewrite fmap_cons, total_cons.
  intros [<-|Hin]%elem_of_cons.
  - rewrite decide_True by done.
    rewrite (list_fmap_ext _ (λ _, 0) rows); [by rewrite total_zero, Z.add_0_r|].
    intros _ l' Hl'%list_elem_of_lookup_2. rewrite decide_False; [done|]. by intros ->.
  - rewrite decide_False by (by intros ->). by rewrite IH.
Qed.

Lemma total_of_lookups rows (periods : list (string * Z)) :
  NoDup rows → NoDup periods.*1 → (∀ label, label ∈ periods.*1 → label ∈ rows) →
  total ((λ label, default 0 ((list_to_map periods : gmap string Z) !! label)) <$> rows)
  = total periods.*2.
Proof.
  intros Hrows. induction periods as [|[l0 v0] periods IH]; intros Hnd Hsub.
  - apply total_zero.
  - rewrite fmap_cons in Hnd. apply NoDup_cons in Hnd as [Hl0 Hnd].
    rewrite fmap_cons, total_cons. cbn [snd].
    rewrite <-IH; [|done|intros label Hl; apply Hsub; rewrite fmap_cons; by right].
    transitivity
      (total ((λ label, (if decide (label = l0) then v0 else 0)
                        + default 0 ((list_to_map periods : gmap string Z) !! label))
              <$> rows)).
    + f_equal. apply list_fmap_ext. intros _ label _.
      rewrite list_to_map_cons. destruct (decide (label = l0)) as [->|Hne].
      * rewrite lookup_insert_eq.
        by rewrite (proj1 (not_elem_of_list_to_map periods l0) Hl0), Z.add_0_r.
      * by rewrite lookup_insert_ne.
    + rewrite total_add, total_once; [done|done|].
      apply Hsub. rewrite fmap_cons. by left.
Qed.

(** Filling the missing cells with 0 keeps the sums: when the counts
    of a category are not above 2^53 in magnitude, the total of its
    column in a returned table is the total of that category's counts
    in the response. *)
Theorem column_total_is_the_total_of_the_category buckets t (j : nat) item
    (col : string * list Z) :
  TrendReshaper to_datetime buckets = Return t →
  buckets !! j = Some item →
  counts t !! j = Some col →
  counts_fit_float64 item →
  total col.2 = total (trend_period item).*2.
Proof.
  intros (rows & Hne & Hitems & Hdates & Hcase)%TrendReshaper_Return Hj Hcol Hfit.
  destruct Hcase as [[Hsame Hcounts]|(-> & Hnd & Hcounts)];
    rewrite Hcounts, list_lookup_fmap, Hj in Hcol; injection Hcol as <-; [done|].
  cbn [count_column snd].
  transitivity (total ((λ label, default 0 (doc_count_at item label))
                       <$> unique (labels buckets))).
  { f_equal. apply list_fmap_ext. intros _ label _. cbn.
    destruct (doc_count_at item label) as [n|] eqn:Hn; [|done]. cbn.
    apply stored_as_it_is. right. unfold counts_fit_float64 in Hfit.
    rewrite Forall_forall in Hfit. by apply Hfit, (doc_count_at_count item label). }
  unfold doc_count_at. apply total_of_lookups.
  - apply NoDup_unique.
  - rewrite Forall_forall in Hnd. apply Hnd. by eapply list_elem_of_lookup_2.
  - intros label Hl. apply elem_of_unique. unfold labels.
    apply list_elem_of_bind. exists item. split; [done|].
    by eapply list_elem_of_lookup_2.
Qed.

(** When all the categories have the same periods in the same order,
    the returned table has those periods as its rows, in that order and
    as often as they are given, and the counts of each category as its
    column, unchanged. *)
Theorem same_periods_are_kept_as_they_are rows buckets t :
  same_index rows buckets →
  TrendReshaper to_datetime buckets = Return t →
  Some <$> Date t = to_datetime <$> rows ∧
  counts t = (λ item, (key item, (trend_period item).*2)) <$> buckets.
Proof.
  intros Hsame (rows' & Hne & Hitems & Hdates & Hcase)%TrendReshaper_Return.
  assert (∀ item, item ∈ buckets → (trend_period item).*1 = rows) as Hidx
    by by apply Forall_forall.
  destruct Hcase as [[Hsame' ->]|(-> & Hnd & ->)].
  - split; [|done]. destruct buckets as [|first others]; [done|].
    apply Forall_cons_1 in Hsame as [<- _]. by apply Forall_cons_1 in Hsame' as [<- _].
  - assert (NoDup rows) as Hrows.
    { destruct buckets as [|first others]; [done|].
      apply Forall_cons_1 in Hnd as [Hnd _]. by rewrite <-(Hidx first) by by left. }
    rewrite (unique_labels_same_index rows buckets) in Hdates |- * by done.
    split; [done|]. apply list_fmap_ext. intros _ item Hin%list_elem_of_lookup_2.
    transitivity ((joined_column rows item).1, default 0 <$> (joined_column rows item).2);
      [unfold count_column, joined_column; cbn; f_equal; by rewrite <-list_fmap_compose|].
    rewrite <-(Hidx item Hin), joined_column_own_labels.
    + cbn. f_equal. rewrite <-list_fmap_compose. exact (list_fmap_id _).
    + rewrite Forall_forall in Hnd. by apply Hnd.
Qed.

End MoreTrendProperties.

Lemma TrendReshaper_returns_only_when_witness :
  Home.TrendReshaper Home.iso_date
    [ {| Home.key := "Checking";
         Home.trend_period := [("2024-01-01", 3); ("2024-01-01", 5)] |};
      {| Home.key := "Credit Card"; Home.trend_period := [("2024-02-01", 2)] |} ]
  = Raise InvalidIndexError.
Proof.
  refine (proj2 (TrendReshaper_returns_only_when Home.iso_date _ _) _ _ _).
  - repeat constructor; by vm_compute.
  - repeat constructor; by vm_compute.
  - intros (rows & Hsame). unfold same_index in Hsame.
    apply Forall_cons_1 in Hsame as [<- Hsame].
    apply Forall_cons_1 in Hsame as [Hsame _]. discriminate Hsame.
  - intros Hnd. apply Forall_cons_1 in Hnd as [Hnd _].
    apply NoDup_cons in Hnd as [Hin _]. apply Hin. by left.
Defined.

Lemma returned_table_is_rectangular_witness :
  ∃ t, Home.TrendReshaper Home.iso_date shared_label_example = Return t ∧
       (Home.counts t).*1 = ["Checking"; "Checking"] ∧
       Forall (λ col : string * list Z, length col.2 = 2%nat) (Home.counts t).
Proof.
  eexists. split; [by vm_compute|].
  destruct (returned_table_is_rectangular Home.iso_date shared_label_example _ eq_refl)
    as (Hnames & _ & Hcells).
  by split.
Defined.

Lemma cells_are_counts_of_the_category_or_zero_witness :
  Forall (λ v : Z, v = 0 ∨ v ∈ [9007199254740993]
                   ∨ v ∈ Home.float64_of_int <$> [9007199254740993])
         [0; 9007199254740992].
Proof.
  exact (proj1 (proj2 (cells_are_counts_of_the_category_or_zero Home.iso_date
                         large_count_example _ 1
                         {| Home.key := "Credit Card";
                            Home.trend_period := [("2024-02-01", 9007199254740993)] |}
                         ("Credit Card", [0; 9007199254740992])
                         eq_refl eq_refl eq_refl))).
Defined.

Lemma column_total_is_the_total_of_the_category_witness :
  total [3; 5] = total [3; 5] ∧ total [0; 2] = total [2].
Proof.
  split.
  - refine (column_total_is_the_total_of_the_category Home.iso_date
              checking_example _ 0 _ ("Checking", [3; 5]) eq_refl eq_refl eq_refl _).
    repeat constructor; by vm_compute.
  - refine (column_total_is_the_total_of_the_category Home.iso_date
              checking_example _ 1 _ ("Credit Card", [0; 2]) eq_refl eq_refl eq_refl _).
    repeat constructor; by vm_compute.
Defined.

Lemma same_periods_are_kept_as_they_are_witness :
  ∃ t, Home.TrendReshaper Home.iso_date repeated_label_example = Return t ∧
       Home.counts t = [("Checking", [3; 5])] ∧ length (Home.Date t) = 2%nat.
Proof.
  eexists. split; [by vm_compute|].
  destruct (same_periods_are_kept_as_they_are Home.iso_date
              ["2024-01-01"; "2024-01-01"] repeated_label_example _
              ltac:(by repeat constructor) eq_refl) as [Hdates Hcounts].
  split; [exact Hcounts|done].
Defined.
